(** * threadsafe: lock-guarded generic map and slice

    A shallow embedding of the Go package [threadsafe] (files [map.go] and
    [slice.go]).  Every method of the package has the shape

      lock.Lock(); defer lock.Unlock(); body

    so the embedding keeps the lock in the state and runs each method as a
    computation that may return, panic, or park forever on a lock that is
    already held.  Maps and slices are reference types in Go: the
    embedding keeps their backing storage in a store, and the guarded struct
    holds a reference into it. *)

From Stdlib Require Import ZArith Lia.
From stdpp Require Import base option list strings gmap.

Local Open Scope Z_scope.

(** ** How a call ends *)

Inductive outcome (W A : Type) : Type :=
| Returned (a : A) (w : W)   (* normal return, in world [w] *)
| Panicked (w : W)           (* run-time panic unwinding into the caller *)
| Fatal                      (* runtime throw, e.g. unlock of unlocked mutex *)
| Blocked.                   (* parked on a lock that nobody will release *)

Arguments Returned {W A} a w.
Arguments Panicked {W A} w.
Arguments Fatal {W A}.
Arguments Blocked {W A}.

(** ** Computations over a world [W] *)

Definition M (W A : Type) : Type := W -> outcome W A.

Definition ret {W A} (a : A) : M W A := fun w => Returned a w.

Definition bind {W A B} (c : M W A) (k : A -> M W B) : M W B :=
  fun w =>
    match c w with
    | Returned a w' => k a w'
    | Panicked w' => Panicked w'
    | Fatal => Fatal
    | Blocked => Blocked
    end.

Definition gets {W A} (f : W -> A) : M W A := fun w => Returned (f w) w.
Definition modify {W} (f : W -> W) : M W unit := fun w => Returned tt (f w).

(** [defer cleanup; body]: the deferred call runs when the body returns and
    also while a panic of the body unwinds. *)
Definition defer {W A} (cleanup : M W unit) (body : M W A) : M W A :=
  fun w =>
    match body w with
    | Returned a w' =>
        match cleanup w' with
        | Returned _ w'' => Returned a w''
        | Panicked w'' => Panicked w''
        | Fatal => Fatal
        | Blocked => Blocked
        end
    | Panicked w' =>
        match cleanup w' with
        | Returned _ w'' => Panicked w''
        | Panicked w'' => Panicked w''
        | Fatal => Fatal
        | Blocked => Blocked
        end
    | Fatal => Fatal
    | Blocked => Blocked
    end.

Declare Scope go_scope.
Delimit Scope go_scope with go.
Notation "x <- c ;; k" := (bind c (fun x => k))
  (at level 100, c at next level, right associativity) : go_scope.
Notation "c ;; k" := (bind c (fun _ => k))
  (at level 100, right associativity) : go_scope.
Local Open Scope go_scope.

(** ** Locks *)

(** [sync.Mutex]: held or not.  It is not reentrant. *)
Record Mutex : Type := { held : bool }.

Definition mutex_free : Mutex := {| held := false |}.

(** [sync.RWMutex]: one writer or any number of readers. *)
Record RWMutex : Type := { writer : bool; readers : nat }.

Definition rwmutex_free : RWMutex := {| writer := false; readers := 0 |}.

(** Lock operations on the lock alone: [None] is "cannot proceed". *)
Definition mutex_lock (l : Mutex) : option Mutex :=
  if held l then None else Some {| held := true |}.

Definition mutex_unlock (l : Mutex) : option Mutex :=
  if held l then Some {| held := false |} else None.

Definition rw_lock (l : RWMutex) : option RWMutex :=
  if writer l then None
  else match readers l with
       | O => Some {| writer := true; readers := 0 |}
       | S _ => None
       end.

Definition rw_unlock (l : RWMutex) : option RWMutex :=
  if writer l then Some {| writer := false; readers := readers l |} else None.

Definition rw_rlock (l : RWMutex) : option RWMutex :=
  if writer l then None
  else Some {| writer := false; readers := S (readers l) |}.

Definition rw_runlock (l : RWMutex) : option RWMutex :=
  match readers l with
  | O => None
  | S n => Some {| writer := writer l; readers := n |}
  end.

(** Acquiring blocks when the lock cannot be taken; releasing a lock that is
    not held is a runtime throw. *)
Definition acquire {W L} (get : W -> L) (set : L -> W -> W)
    (op : L -> option L) : M W unit :=
  fun w => match op (get w) with
           | Some l => Returned tt (set l w)
           | None => Blocked
           end.

Definition release {W L} (get : W -> L) (set : L -> W -> W)
    (op : L -> option L) : M W unit :=
  fun w => match op (get w) with
           | Some l => Returned tt (set l w)
           | None => Fatal
           end.

(** Locations of the store. *)
Abbreviation loc := positive.

(** Every Go type has a zero value: what [*new(T)], a missing map entry and
    a freshly made slice element hold. *)
Class ZeroValue (A : Type) : Type := zero_value : A.

#[global] Instance Z_zero_value : ZeroValue Z := 0.
#[global] Instance string_zero_value : ZeroValue string := EmptyString.
#[global] Instance bool_zero_value : ZeroValue bool := false.

(** [make([]A, n)]: [n] zero values. *)
Definition make_list {A} `{ZeroValue A} (n : nat) : list A := replicate n zero_value.

(** [xs[i] = x] on a slice of known contents: out of range is a panic ([None]). *)
Definition store_at {A} (xs : list A) (i : Z) (x : A) : option (list A) :=
  if decide (0 <= i < Z.of_nat (length xs))
  then Some (<[Z.to_nat i := x]> xs)
  else None.

(** * [map.go]: [Map] guarded by a [sync.Mutex] *)

Module MutexMap.
Section MutexMap.
Context {K : Type} `{Countable K} `{ZeroValue K}.
Context {V : Type} `{ZeroValue V}.

(** The zero value of [V]. *)
Definition zero : V := zero_value.

(** The struct [Map[K, V]] together with the store of map objects its
    [Data] field points into; a nil [Data] is [None]. *)
Record World : Type := {
  maps : gmap loc (gmap K V);
  Data : option loc;
  lock : Mutex
}.

Definition set_lock (l : Mutex) (w : World) : World :=
  {| maps := maps w; Data := Data w; lock := l |}.

Definition set_Data (d : option loc) (w : World) : World :=
  {| maps := maps w; Data := d; lock := lock w |}.

Definition set_maps (h : gmap loc (gmap K V)) (w : World) : World :=
  {| maps := h; Data := Data w; lock := lock w |}.

Definition Lock : M World unit := acquire lock set_lock mutex_lock.
Definition Unlock : M World unit := release lock set_lock mutex_unlock.

(** The entries [m.Data] refers to; a nil map reads as empty. *)
Definition entries (w : World) : gmap K V :=
  match Data w with
  | Some l => default ∅ (maps w !! l)
  | None => ∅
  end.

(** [v, ok := m.Data[key]] *)
Definition map_read (key : K) : M World (V * bool) :=
  fun w => match entries w !! key with
           | Some v => Returned (v, true) w
           | None => Returned (zero, false) w
           end.

(** [m.Data[key] = value]: an assignment to an entry of a nil map panics. *)
Definition map_write (key : K) (value : V) : M World unit :=
  fun w => match Data w with
           | Some l => Returned tt (set_maps (alter (insert key value) l (maps w)) w)
           | None => Panicked w
           end.

(** [delete(m.Data, key)]: a no-op on a nil map. *)
Definition map_delete (key : K) : M World unit :=
  fun w => match Data w with
           | Some l => Returned tt (set_maps (alter (delete key) l (maps w)) w)
           | None => Returned tt w
           end.

(** [make(map[K]V)]: a new, empty map object at an unused location. *)
Definition make_map : M World loc :=
  fun w => let l := fresh (dom (maps w)) in
           Returned l (set_maps (<[l := ∅]> (maps w)) w).

(** [len(m.Data)] *)
Definition map_len : M World Z := gets (fun w => Z.of_nat (size (entries w))).

(** [for k, v := range m.Data]: Go leaves the order unspecified;
    [map_to_list] fixes one. *)
Definition range (w : World) : list (K * V) := map_to_list (entries w).

(** [NewMap()], allocating in the store [h]. *)
Definition NewMap (h : gmap loc (gmap K V)) : World :=
  let l := fresh (dom h) in
  {| maps := <[l := ∅]> h; Data := Some l; lock := mutex_free |}.

(** The zero value [Map[K, V]{}]. *)
Definition zero_Map (h : gmap loc (gmap K V)) : World :=
  {| maps := h; Data := None; lock := mutex_free |}.

Definition Delete (key : K) : M World unit :=
  Lock ;;
  defer Unlock (
    r <- map_read key ;;
    if snd r then map_delete key else ret tt).

Definition Get (key : K) : M World (V * bool) :=
  Lock ;;
  defer Unlock (
    r <- map_read key ;;
    ret r).

Definition Pull (key : K) : M World (V * bool) :=
  Lock ;;
  defer Unlock (
    r <- map_read key ;;
    if negb (snd r) then ret r
    else Delete key ;; ret r).

(** [Set]: the name itself is reserved in Rocq. *)
Definition Set_ (key : K) (value : V) : M World unit :=
  Lock ;;
  defer Unlock (map_write key value).

(** The loop bodies [keys[index] = k; index++]. *)
Fixpoint keys_loop (es : list (K * V)) (keys : list K) (index : Z)
    : option (list K) :=
  match es with
  | [] => Some keys
  | (k, _) :: es' =>
      match store_at keys index k with
      | Some keys' => keys_loop es' keys' (index + 1)
      | None => None
      end
  end.

Fixpoint values_loop (es : list (K * V)) (values : list V) (index : Z)
    : option (list V) :=
  match es with
  | [] => Some values
  | (_, v) :: es' =>
      match store_at values index v with
      | Some values' => values_loop es' values' (index + 1)
      | None => None
      end
  end.

Fixpoint items_loop (es : list (K * V)) (keys : list K) (values : list V)
    (index : Z) : option (list K * list V) :=
  match es with
  | [] => Some (keys, values)
  | (k, v) :: es' =>
      match store_at keys index k with
      | Some keys' =>
          match store_at values index v with
          | Some values' => items_loop es' keys' values' (index + 1)
          | None => None
          end
      | None => None
      end
  end.

Definition lift_option {A} (o : option A) : M World A :=
  fun w => match o with Some a => Returned a w | None => Panicked w end.

(** The returned slices are freshly made and shared with nobody: they are
    given by their contents. *)
Definition Keys : M World (list K) :=
  Lock ;;
  defer Unlock (
    n <- map_len ;;
    es <- gets range ;;
    lift_option (keys_loop es (make_list (Z.to_nat n)) 0)).

Definition Values : M World (list V) :=
  Lock ;;
  defer Unlock (
    n <- map_len ;;
    es <- gets range ;;
    lift_option (values_loop es (make_list (Z.to_nat n)) 0)).

Definition Items : M World (list K * list V) :=
  Lock ;;
  defer Unlock (
    n <- map_len ;;
    es <- gets range ;;
    lift_option (items_loop es (make_list (Z.to_nat n)) (make_list (Z.to_nat n)) 0)).

Definition Empty : M World unit :=
  Lock ;;
  defer Unlock (
    modify (set_Data None) ;;
    l <- make_map ;;
    modify (set_Data (Some l))).

Definition Len : M World Z :=
  Lock ;;
  defer Unlock map_len.

(** The calls of the package on a [Map], and the world a call returns in,
    if it returns. *)
Inductive call : Type :=
| CallGet (key : K)
| CallPull (key : K)
| CallSet (key : K) (value : V)
| CallDelete (key : K)
| CallKeys
| CallValues
| CallItems
| CallEmpty
| CallLen.

Definition returned_in {A} (o : outcome World A) : option World :=
  match o with
  | Returned _ w' => Some w'
  | _ => None
  end.

Definition after (c : call) (w : World) : option World :=
  match c with
  | CallGet key => returned_in (Get key w)
  | CallPull key => returned_in (Pull key w)
  | CallSet key value => returned_in (Set_ key value w)
  | CallDelete key => returned_in (Delete key w)
  | CallKeys => returned_in (Keys w)
  | CallValues => returned_in (Values w)
  | CallItems => returned_in (Items w)
  | CallEmpty => returned_in (Empty w)
  | CallLen => returned_in (Len w)
  end.

(** The states of a [Map] made by [NewMap] and used through its methods. *)
Inductive made : World -> Prop :=
| made_NewMap h : made (NewMap h)
| made_call c w w' : made w -> after c w = Some w' -> made w'.

(** No call is in progress. *)
Definition quiescent (w : World) : Prop := lock w = mutex_free.

(** [Data], when not nil, refers to a map object of the store. *)
Definition allocated (w : World) : Prop :=
  match Data w with
  | Some l => is_Some (maps w !! l)
  | None => True
  end.

End MutexMap.
End MutexMap.

(** * Go slices over a store of arrays *)

(** Go's [int] is 64 bits wide; [index+1] wraps around. *)
Definition max_int : Z := 2 ^ 63 - 1.
Definition wrap_int (z : Z) : Z := (z + 2 ^ 63) mod 2 ^ 64 - 2 ^ 63.

(** Overwriting a segment of an array: what [copy]/[memmove] leaves behind. *)
Definition write_at {A} (arr : list A) (pos : nat) (xs : list A) : list A :=
  take pos arr ++ xs ++ drop (pos + length xs) arr.

Module GoSlice.

(** A slice value: a window [off, off+len) of the array at [ptr], which it
    may grow into up to [off+cap). *)
Record header : Type := { ptr : loc; off : nat; len : nat; cap : nat }.

(** The nil slice is [None]. *)
Abbreviation slice := (option header).

Definition slice_len (s : slice) : Z :=
  match s with Some hd => Z.of_nat (len hd) | None => 0 end.

Definition slice_cap (s : slice) : Z :=
  match s with Some hd => Z.of_nat (cap hd) | None => 0 end.

(** [s[lo:hi]]: in range when [0 <= lo <= hi <= cap(s)]; [None] is the
    run-time panic. *)
Definition reslice (s : slice) (lo hi : Z) : option slice :=
  if decide (0 <= lo /\ lo <= hi /\ hi <= slice_cap s) then
    Some (match s with
          | Some hd => Some {| ptr := ptr hd;
                               off := (off hd + Z.to_nat lo)%nat;
                               len := Z.to_nat (hi - lo);
                               cap := (cap hd - Z.to_nat lo)%nat |}
          | None => None
          end)
  else None.

Section Store.
Context {T : Type} `{ZeroValue T}.

(** The runtime's growth policy is not part of the package: a slice that
    outgrows its capacity [c] to hold [n] elements is given
    [n + slack c n] of them. *)
Variable slack : nat -> nat -> nat.

(** The lock of the guarded struct, a [Mutex] or a [RWMutex]. *)
Context {L : Type}.

(** The struct [Slice[T]] and the store of arrays its [Data] points into. *)
Record World : Type := {
  arrays : gmap loc (list T);
  Data : slice;
  lock : L
}.

Definition set_lock (l : L) (w : World) : World :=
  {| arrays := arrays w; Data := Data w; lock := l |}.

Definition set_Data (d : slice) (w : World) : World :=
  {| arrays := arrays w; Data := d; lock := lock w |}.

Definition set_arrays (h : gmap loc (list T)) (w : World) : World :=
  {| arrays := h; Data := Data w; lock := lock w |}.

(** The elements a slice shows, read off a store. *)
Definition view (h : gmap loc (list T)) (s : slice) : list T :=
  match s with
  | Some hd => take (len hd) (drop (off hd) (default [] (h !! ptr hd)))
  | None => []
  end.

(** The elements of the guarded sequence. *)
Definition contents (w : World) : list T := view (arrays w) (Data w).

Definition slice_expr (s : slice) (lo hi : Z) : M World slice :=
  fun w => match reslice s lo hi with
           | Some s' => Returned s' w
           | None => Panicked w
           end.

(** [s[i]]: index out of range panics. *)
Definition index_load (s : slice) (i : Z) : M World T :=
  fun w =>
    if decide (0 <= i < slice_len s) then
      match view (arrays w) s !! Z.to_nat i with
      | Some x => Returned x w
      | None => Fatal   (* the window lies outside its array: no Go value *)
      end
    else Panicked w.

(** [s[i] = x] *)
Definition index_store (s : slice) (i : Z) (x : T) : M World unit :=
  fun w =>
    if decide (0 <= i < slice_len s) then
      match s with
      | Some hd =>
          Returned tt
            (set_arrays (alter (fun arr => <[(off hd + Z.to_nat i)%nat := x]> arr)
                               (ptr hd) (arrays w)) w)
      | None => Fatal
      end
    else Panicked w.

(** [[]T{v}]: a one-element array of its own. *)
Definition literal (v : T) : M World slice :=
  fun w =>
    let l := fresh (dom (arrays w)) in
    Returned (Some {| ptr := l; off := 0%nat; len := 1%nat; cap := 1%nat |})
             (set_arrays (<[l := [v]]> (arrays w)) w).

(** [append(s, xs...)], the elements [xs] having been read beforehand:
    within capacity the elements are written behind the window, into the
    array [s] shares; beyond it everything moves to a new array. *)
Definition append (s : slice) (xs : list T) : M World slice :=
  fun w =>
    let n := length xs in
    match s with
    | Some hd =>
        if decide (len hd + n <= cap hd)%nat then
          Returned (Some {| ptr := ptr hd; off := off hd;
                            len := (len hd + n)%nat; cap := cap hd |})
                   (set_arrays (alter (fun arr => write_at arr (off hd + len hd)%nat xs)
                                      (ptr hd) (arrays w)) w)
        else
          let l := fresh (dom (arrays w)) in
          let c := (len hd + n + slack (cap hd) (len hd + n))%nat in
          Returned (Some {| ptr := l; off := 0%nat; len := (len hd + n)%nat; cap := c |})
                   (set_arrays (<[l := view (arrays w) s ++ xs
                                        ++ make_list (c - (len hd + n))]>
                                  (arrays w)) w)
    | None =>
        match n with
        | O => Returned None w
        | S _ =>
            let l := fresh (dom (arrays w)) in
            let c := (n + slack 0 n)%nat in
            Returned (Some {| ptr := l; off := 0%nat; len := n; cap := c |})
                     (set_arrays (<[l := xs ++ make_list (c - n)]> (arrays w)) w)
        end
    end.

(** The statement [s.Data[index] = v]. *)
Definition assign_index (index : Z) (v : T) : M World unit :=
  d <- gets Data ;;
  index_store d index v.

(** The statement
    [s.Data = append(s.Data[:index], append([]T{v}, s.Data[index:]...)...)]. *)
Definition assign_insert (index : Z) (v : T) : M World unit :=
  d <- gets Data ;;
  a <- slice_expr d 0 index ;;
  lit <- literal v ;;
  d' <- gets Data ;;
  b <- slice_expr d' index (slice_len d') ;;
  xs <- gets (fun w => view (arrays w) b) ;;
  inner <- append lit xs ;;
  ys <- gets (fun w => view (arrays w) inner) ;;
  r <- append a ys ;;
  modify (set_Data r).

(** The statement [s.Data = append(s.Data[:index], s.Data[index+1:]...)]. *)
Definition assign_delete (index : Z) : M World unit :=
  d <- gets Data ;;
  a <- slice_expr d 0 index ;;
  d' <- gets Data ;;
  b <- slice_expr d' (wrap_int (index + 1)) (slice_len d') ;;
  xs <- gets (fun w => view (arrays w) b) ;;
  r <- append a xs ;;
  modify (set_Data r).

(** The statement [s.Data = append(s.Data, v)]. *)
Definition assign_append (v : T) : M World unit :=
  d <- gets Data ;;
  r <- append d [v] ;;
  modify (set_Data r).

(** The loop [for i, v := range s.Data { if f(v) { return i } }; return -1]. *)
Fixpoint index_loop (f : T -> bool) (xs : list T) (i : Z) : Z :=
  match xs with
  | [] => -1
  | v :: xs' => if f v then i else index_loop f xs' (i + 1)
  end.

(** A slice that Go can hold: its window and capacity lie inside an
    array of the store. *)
Definition slice_ok (h : gmap loc (list T)) (s : slice) : Prop :=
  match s with
  | Some hd => exists arr, h !! ptr hd = Some arr /\
                 (off hd + cap hd <= length arr)%nat /\
                 (len hd <= cap hd)%nat
  | None => True
  end.

(** The guarded sequence is well formed: [Data] is such a slice and its
    length is an [int]. *)
Definition well_formed (w : World) : Prop :=
  slice_ok (arrays w) (Data w) /\ slice_len (Data w) <= max_int.

(** Two stores that hold the same array behind a slice. *)
Definition agree (h h' : gmap loc (list T)) (s : slice) : Prop :=
  match s with
  | Some hd => h' !! ptr hd = h !! ptr hd
  | None => True
  end.

(** What a store keeps when arrays are added to it or one of them is
    rewritten. *)
Definition kept (h h' : gmap loc (list T)) (except : option loc) : Prop :=
  forall l arr, h !! l = Some arr -> except <> Some l -> h' !! l = Some arr.

End Store.

Arguments World T L : clear implicits.

End GoSlice.

(** * [slice.go]: [Slice] guarded by a [sync.Mutex] *)

Module MutexSlice.
Import GoSlice.
Section MutexSlice.
Context {T : Type} `{ZeroValue T}.
Variable slack : nat -> nat -> nat.

Abbreviation World := (GoSlice.World T Mutex).

Definition Lock : M World unit := acquire lock set_lock mutex_lock.
Definition Unlock : M World unit := release lock set_lock mutex_unlock.

Definition Append (v : T) : M World unit :=
  Lock ;;
  defer Unlock (assign_append slack v).

Definition Insert (index : Z) (v : T) : M World unit :=
  Lock ;;
  defer Unlock (assign_insert slack index v).

(** The bounds are tested before the lock is taken. *)
Definition SafeInsert (index : Z) (v : T) : M World bool :=
  d <- gets Data ;;
  if decide (index < 0 \/ index > slice_len d) then ret false
  else
    Lock ;;
    defer Unlock (
      assign_insert slack index v ;;
      ret true).

Definition Replace (index : Z) (v : T) : M World unit :=
  Lock ;;
  defer Unlock (assign_index index v).

Definition SafeReplace (index : Z) (v : T) : M World bool :=
  Lock ;;
  defer Unlock (
    d <- gets Data ;;
    if decide (index < 0 \/ index >= slice_len d) then ret false
    else
      assign_index index v ;;
      ret true).

Definition Get (index : Z) : M World T :=
  Lock ;;
  defer Unlock (
    d <- gets Data ;;
    index_load d index).

(** The slice header itself is handed out: it shares the array. *)
Definition GetAll : M World slice :=
  Lock ;;
  defer Unlock (gets Data).

Definition SafeGet (index : Z) : M World (T * bool) :=
  Lock ;;
  defer Unlock (
    d <- gets Data ;;
    if decide (index < 0 \/ index >= slice_len d) then ret (zero_value, false)
    else
      x <- index_load d index ;;
      ret (x, true)).

Definition Delete (index : Z) : M World unit :=
  Lock ;;
  defer Unlock (assign_delete slack index).

Definition SafeDelete (index : Z) : M World bool :=
  d <- gets Data ;;
  if decide (index < 0 \/ index >= slice_len d) then ret false
  else
    Lock ;;
    defer Unlock (
      assign_delete slack index ;;
      ret true).

Definition Empty : M World unit :=
  Lock ;;
  modify (set_Data None) ;;
  Unlock.

Definition IndexFunc (f : T -> bool) : M World Z :=
  Lock ;;
  defer Unlock (
    xs <- gets contents ;;
    ret (index_loop f xs 0)).

Definition Len : M World Z :=
  Lock ;;
  defer Unlock (
    d <- gets Data ;;
    ret (slice_len d)).

Definition quiescent (w : World) : Prop := lock w = mutex_free.

End MutexSlice.
End MutexSlice.

(** * [slice.go], second variant: [Slice] guarded by a [sync.RWMutex]

    The third variant, at the end of [map.go], has the same [Append],
    [Insert], [Get], [GetAll], [SafeGet], [Delete], [SafeDelete],
    [IndexFunc] and [Len], statement for statement, and lacks [SafeInsert]
    and [Empty]. *)

Module RWSlice.
Import GoSlice.
Section RWSlice.
Context {T : Type} `{ZeroValue T}.
Variable slack : nat -> nat -> nat.

Abbreviation World := (GoSlice.World T RWMutex).

Definition Lock : M World unit := acquire lock set_lock rw_lock.
Definition Unlock : M World unit := release lock set_lock rw_unlock.
Definition RLock : M World unit := acquire lock set_lock rw_rlock.
Definition RUnlock : M World unit := release lock set_lock rw_runlock.

Definition Append (v : T) : M World unit :=
  Lock ;;
  defer Unlock (assign_append slack v).

(** [index] is a [uint]: it cannot be negative. *)
Definition Insert (index : N) (v : T) : M World unit :=
  Lock ;;
  defer Unlock (assign_index (Z.of_N index) v).

(** No [defer] here: the early return leaves the read lock taken, and a
    panic of the assignment leaves the write lock taken. *)
Definition SafeInsert (index : Z) (v : T) : M World bool :=
  RLock ;;
  d <- gets Data ;;
  if decide (index >= slice_len d) then ret false
  else
    RUnlock ;;
    Lock ;;
    assign_index index v ;;
    Unlock ;;
    ret true.

Definition Get (index : Z) : M World T :=
  RLock ;;
  defer RUnlock (
    d <- gets Data ;;
    index_load d index).

Definition GetAll : M World slice :=
  RLock ;;
  defer RUnlock (gets Data).

Definition SafeGet (index : Z) : M World (T * bool) :=
  RLock ;;
  defer RUnlock (
    d <- gets Data ;;
    if decide (index > slice_len d) then ret (zero_value, false)
    else
      x <- index_load d index ;;
      ret (x, true)).

Definition Delete (index : Z) : M World unit :=
  Lock ;;
  defer Unlock (assign_delete slack index).

Definition SafeDelete (index : Z) : M World bool :=
  d <- gets Data ;;
  if decide (index < 0 \/ index >= slice_len d) then ret false
  else
    Lock ;;
    defer Unlock (
      assign_delete slack index ;;
      ret true).

Definition Empty : M World unit :=
  Lock ;;
  modify (set_Data None) ;;
  Unlock.

Definition IndexFunc (f : T -> bool) : M World Z :=
  RLock ;;
  defer RUnlock (
    xs <- gets contents ;;
    ret (index_loop f xs 0)).

Definition Len : M World Z :=
  RLock ;;
  defer RUnlock (
    d <- gets Data ;;
    ret (slice_len d)).

Definition quiescent (w : World) : Prop := lock w = rwmutex_free.

End RWSlice.
End RWSlice.

(** * [map.go], second variant: [Map] guarded by a [sync.RWMutex]

    [Get], [Keys], [Values] and [Items] take the read lock; [Set], [Delete]
    and [Empty] take the write lock.  This variant has no [Pull] and no
    [Len]. *)

Module RWMap.
Section RWMap.
Context {K : Type} `{Countable K} `{ZeroValue K}.
Context {V : Type} `{ZeroValue V}.

(** The zero value of [V]. *)
Definition zero : V := zero_value.

(** The struct [Map[K, V]] and the store of map objects; a nil [Data] is
    [None]. *)
Record World : Type := {
  maps : gmap loc (gmap K V);
  Data : option loc;
  lock : RWMutex
}.

Definition set_lock (l : RWMutex) (w : World) : World :=
  {| maps := maps w; Data := Data w; lock := l |}.

Definition set_Data (d : option loc) (w : World) : World :=
  {| maps := maps w; Data := d; lock := lock w |}.

Definition set_maps (h : gmap loc (gmap K V)) (w : World) : World :=
  {| maps := h; Data := Data w; lock := lock w |}.

Definition Lock : M World unit := acquire lock set_lock rw_lock.
Definition Unlock : M World unit := release lock set_lock rw_unlock.
Definition RLock : M World unit := acquire lock set_lock rw_rlock.
Definition RUnlock : M World unit := release lock set_lock rw_runlock.

(** The entries [m.Data] refers to; a nil map reads as empty. *)
Definition entries (w : World) : gmap K V :=
  match Data w with
  | Some l => default ∅ (maps w !! l)
  | None => ∅
  end.

(** [v, ok := m.Data[key]] *)
Definition map_read (key : K) : M World (V * bool) :=
  fun w => match entries w !! key with
           | Some v => Returned (v, true) w
           | None => Returned (zero, false) w
           end.

(** [m.Data[key] = value]: an assignment to an entry of a nil map panics. *)
Definition map_write (key : K) (value : V) : M World unit :=
  fun w => match Data w with
           | Some l => Returned tt (set_maps (alter (insert key value) l (maps w)) w)
           | None => Panicked w
           end.

(** [delete(m.Data, key)]: a no-op on a nil map. *)
Definition map_delete (key : K) : M World unit :=
  fun w => match Data w with
           | Some l => Returned tt (set_maps (alter (delete key) l (maps w)) w)
           | None => Returned tt w
           end.

(** [make(map[K]V)] *)
Definition make_map : M World loc :=
  fun w => let l := fresh (dom (maps w)) in
           Returned l (set_maps (<[l := ∅]> (maps w)) w).

(** [len(m.Data)] *)
Definition map_len : M World Z := gets (fun w => Z.of_nat (size (entries w))).

(** [for k, v := range m.Data], in the order [map_to_list] fixes. *)
Definition range (w : World) : list (K * V) := map_to_list (entries w).

Definition lift_option {A} (o : option A) : M World A :=
  fun w => match o with Some a => Returned a w | None => Panicked w end.

(** [NewMap()], allocating in the store [h]. *)
Definition NewMap (h : gmap loc (gmap K V)) : World :=
  let l := fresh (dom h) in
  {| maps := <[l := ∅]> h; Data := Some l; lock := rwmutex_free |}.

(** The zero value [Map[K, V]{}]. *)
Definition zero_Map (h : gmap loc (gmap K V)) : World :=
  {| maps := h; Data := None; lock := rwmutex_free |}.

Definition Get (key : K) : M World (V * bool) :=
  RLock ;;
  defer RUnlock (
    r <- map_read key ;;
    ret r).

(** [Set]: the name itself is reserved in Rocq. *)
Definition Set_ (key : K) (value : V) : M World unit :=
  Lock ;;
  defer Unlock (map_write key value).

Definition Delete (key : K) : M World unit :=
  Lock ;;
  defer Unlock (
    r <- map_read key ;;
    if snd r then map_delete key else ret tt).

(** The loops are those of the first variant. *)
Definition Keys : M World (list K) :=
  RLock ;;
  defer RUnlock (
    n <- map_len ;;
    es <- gets range ;;
    lift_option (MutexMap.keys_loop es (make_list (Z.to_nat n)) 0)).

Definition Values : M World (list V) :=
  RLock ;;
  defer RUnlock (
    n <- map_len ;;
    es <- gets range ;;
    lift_option (MutexMap.values_loop es (make_list (Z.to_nat n)) 0)).

Definition Items : M World (list K * list V) :=
  RLock ;;
  defer RUnlock (
    n <- map_len ;;
    es <- gets range ;;
    lift_option (MutexMap.items_loop es (make_list (Z.to_nat n))
                   (make_list (Z.to_nat n)) 0)).

Definition Empty : M World unit :=
  Lock ;;
  defer Unlock (
    modify (set_Data None) ;;
    l <- make_map ;;
    modify (set_Data (Some l))).

(** No call is in progress. *)
Definition quiescent (w : World) : Prop := lock w = rwmutex_free.

(** [Data], when not nil, refers to a map object of the store. *)
Definition allocated (w : World) : Prop :=
  match Data w with
  | Some l => is_Some (maps w !! l)
  | None => True
  end.

End RWMap.
End RWMap.

(** * Concrete worlds

    String keys and integer values, as in the package's use. *)

Definition ab : MutexMap.World (K := string) (V := Z) :=
  {| MutexMap.maps := {[ 1%positive := {[ "a"%string := 1; "b"%string := 2 ]} ]};
     MutexMap.Data := Some 1%positive;
     MutexMap.lock := mutex_free |}.

Definition rw_ab : RWMap.World (K := string) (V := Z) :=
  {| RWMap.maps := {[ 1%positive := {[ "a"%string := 1; "b"%string := 2 ]} ]};
     RWMap.Data := Some 1%positive;
     RWMap.lock := rwmutex_free |}.

(** The sequence [[10, 20, 30]] in an array of its own, under either lock. *)
Definition seq123 {L : Type} (l : L) : GoSlice.World Z L :=
  {| GoSlice.arrays := {[ 1%positive := [10; 20; 30] ]};
     GoSlice.Data := Some {| GoSlice.ptr := 1%positive; GoSlice.off := 0;
                             GoSlice.len := 3; GoSlice.cap := 3 |};
     GoSlice.lock := l |}.

(** The same three elements at the front of an array of four. *)
Definition roomy123 : GoSlice.World Z Mutex :=
  {| GoSlice.arrays := {[ 1%positive := [10; 20; 30; 0] ]};
     GoSlice.Data := Some {| GoSlice.ptr := 1%positive; GoSlice.off := 0;
                             GoSlice.len := 3; GoSlice.cap := 4 |};
     GoSlice.lock := mutex_free |}.

Definition s123 : GoSlice.World Z Mutex := seq123 mutex_free.
Definition rw123 : GoSlice.World Z RWMutex := seq123 rwmutex_free.

(** A growth policy to run the examples with: as much again as there was. *)
Definition grow_double (c n : nat) : nat := c.

(** * Facts about [Map] *)

Section MutexMapFacts.
Import MutexMap.
Context {K : Type} `{Countable K} `{ZeroValue K}.
Context {V : Type} `{ZeroValue V}.
Implicit Types (w : World (K := K) (V := V)) (key : K) (value : V).

Ltac start w :=
  destruct w as [? ? ?]; unfold quiescent, entries in *; simpl in *; subst.

Ltac run :=
  unfold Get, Pull, Delete, Set_, Len, Empty, Keys, Values, Items,
    Lock, Unlock, acquire, release, bind, defer, ret, gets, modify,
    map_read, map_write, map_delete, map_len, make_map, range, lift_option,
    entries, set_lock, set_Data, set_maps, mutex_free;
  simpl.

Lemma Get_spec w key :
  quiescent w ->
  Get key w = Returned (match entries w !! key with
                        | Some v => (v, true)
                        | None => (zero, false)
                        end) w.
Proof.
  intros Hq. start w. run.
  match goal with |- context [ ?m !! key ] => destruct (m !! key) end;
    reflexivity.
Qed.

Lemma Len_spec w :
  quiescent w -> Len w = Returned (Z.of_nat (size (entries w))) w.
Proof. intros Hq. start w. reflexivity. Qed.

Lemma Set_spec w key value l :
  quiescent w -> Data w = Some l ->
  Set_ key value w
  = Returned tt (set_maps (alter (insert key value) l (maps w)) w).
Proof. intros Hq HD. start w. reflexivity. Qed.

Lemma Set_nil w key value :
  quiescent w -> Data w = None -> Set_ key value w = Panicked w.
Proof. intros Hq HD. start w. reflexivity. Qed.

Lemma entries_after_write w key value l d :
  Data w = Some l -> maps w !! l = Some d ->
  entries (set_maps (alter (insert key value) l (maps w)) w) = <[key := value]> d.
Proof.
  intros HD Hl. unfold entries; simpl. rewrite HD.
  rewrite lookup_alter_eq, Hl. reflexivity.
Qed.

Lemma Delete_absent w key :
  quiescent w -> entries w !! key = None -> Delete key w = Returned tt w.
Proof. intros Hq Hk. start w. run. rewrite Hk. reflexivity. Qed.

Lemma Delete_present w key v l :
  quiescent w -> Data w = Some l -> entries w !! key = Some v ->
  Delete key w = Returned tt (set_maps (alter (delete key) l (maps w)) w).
Proof. intros Hq HD Hk. start w. run. rewrite Hk. reflexivity. Qed.

(** A missing key: [Pull] reports it and changes nothing. *)
Lemma Pull_absent w key :
  quiescent w -> entries w !! key = None ->
  Pull key w = Returned (zero, false) w.
Proof. intros Hq Hk. start w. run. rewrite Hk. reflexivity. Qed.

(** A call of [Delete] made while the lock is held never gets past its
    own [Lock]. *)
Lemma Delete_held w key : lock w = {| held := true |} -> Delete key w = Blocked.
Proof. intros Hl. destruct w as [h d l]; simpl in *; subst. reflexivity. Qed.

(** [Pull] of a key that is present reaches its call of [Delete] with the
    mutex held. *)
Lemma Pull_present_held w key v :
  quiescent w -> entries w !! key = Some v -> Pull key w = Blocked.
Proof. intros Hq Hk. start w. run. rewrite Hk. reflexivity. Qed.

Lemma Empty_spec w :
  quiescent w ->
  Empty w = Returned tt {| maps := <[fresh (dom (maps w)) := ∅]> (maps w);
                           Data := Some (fresh (dom (maps w)));
                           lock := mutex_free |}.
Proof. intros Hq. start w. reflexivity. Qed.

(** A map made by [NewMap] and used through its methods is, between
    calls, unlocked and holds a map object of the store. *)
Lemma made_invariant w :
  made w -> quiescent w /\ allocated w /\ Data w <> None.
Proof.
  induction 1 as [h|c w w' Hm IH Hc].
  - split; [reflexivity|]. split; [|discriminate].
    unfold allocated; simpl. rewrite lookup_insert_eq. eauto.
  - destruct IH as (Hq & Ha & Hn).
    destruct (Data w) as [l|] eqn:HD; [clear Hn|congruence].
    unfold allocated in Ha. rewrite HD in Ha. destruct Ha as [d Hd].
    assert (Hsame : quiescent w /\ allocated w /\ Data w <> None).
    { split; [exact Hq|]. unfold allocated. rewrite HD. split; [eauto|discriminate]. }
    destruct c; simpl in Hc.
    + rewrite Get_spec in Hc by exact Hq. injection Hc as <-. exact Hsame.
    + destruct (entries w !! key) as [v|] eqn:Hk.
      * rewrite (Pull_present_held w key v Hq Hk) in Hc. discriminate.
      * rewrite Pull_absent in Hc by assumption. injection Hc as <-. exact Hsame.
    + rewrite (Set_spec w key value l Hq HD) in Hc. injection Hc as <-.
      split; [exact Hq|]. unfold allocated; simpl. rewrite HD.
      split; [|discriminate]. rewrite lookup_alter_eq, Hd. simpl. eauto.
    + destruct (entries w !! key) as [v|] eqn:Hk.
      * rewrite (Delete_present w key v l Hq HD Hk) in Hc. injection Hc as <-.
        split; [exact Hq|]. unfold allocated; simpl. rewrite HD.
        split; [|discriminate]. rewrite lookup_alter_eq, Hd. simpl. eauto.
      * rewrite Delete_absent in Hc by assumption. injection Hc as <-. exact Hsame.
    + revert Hc. start w. run.
      match goal with |- context [ keys_loop ?a ?b ?c ] =>
        destruct (keys_loop a b c) end; simpl; intros Hc; [|discriminate].
      injection Hc as <-. exact Hsame.
    + revert Hc. start w. run.
      match goal with |- context [ values_loop ?a ?b ?c ] =>
        destruct (values_loop a b c) end; simpl; intros Hc; [|discriminate].
      injection Hc as <-. exact Hsame.
    + revert Hc. start w. run.
      match goal with |- context [ items_loop ?a ?b ?c ?e ] =>
        destruct (items_loop a b c e) end; simpl; intros Hc; [|discriminate].
      injection Hc as <-. exact Hsame.
    + rewrite Empty_spec in Hc by exact Hq. injection Hc as <-.
      split; [reflexivity|]. unfold allocated; simpl.
      split; [|discriminate]. rewrite lookup_insert_eq. eauto.
    + rewrite Len_spec in Hc by exact Hq. injection Hc as <-. exact Hsame.
Qed.

(** C5 (the code breaks it).  [Pull] of a key that is present takes the
    mutex and then calls [Delete], which takes the same mutex again:
    [sync.Mutex] is not reentrant, so from any quiescent map holding the
    key the call parks forever instead of returning, although [Get] and
    [Delete] of the same key in the same state both return. *)
Theorem Pull_present_blocks w key v :
  quiescent w -> entries w !! key = Some v ->
  Pull key w = Blocked /\
  Get key w = Returned (v, true) w /\
  exists w', Delete key w = Returned tt w'.
Proof.
  intros Hq Hk. split; [exact (Pull_present_held w key v Hq Hk)|]. split.
  - rewrite Get_spec by exact Hq. rewrite Hk. reflexivity.
  - destruct (Data w) as [l|] eqn:HD.
    + eexists. apply (Delete_present w key v l Hq HD Hk).
    + unfold entries in Hk. rewrite HD, lookup_empty in Hk. discriminate.
Qed.

Lemma Get_absent w key :
  quiescent w -> entries w !! key = None -> Get key w = Returned (zero, false) w.
Proof. intros Hq Hk. rewrite Get_spec by exact Hq. rewrite Hk. reflexivity. Qed.

(** [Set] needs a map object to write into; given one it returns, and the
    key then reads back. *)
Lemma Set_then_Get w key value :
  quiescent w -> allocated w -> Data w <> None ->
  exists w', Set_ key value w = Returned tt w' /\
             quiescent w' /\
             entries w' = <[key := value]> (entries w) /\
             Get key w' = Returned (value, true) w'.
Proof.
  intros Hq Ha Hn. destruct (Data w) as [l|] eqn:HD; [|congruence].
  unfold allocated in Ha. rewrite HD in Ha. destruct Ha as [d Hd].
  eexists. split; [apply (Set_spec w key value l Hq HD)|].
  assert (He : entries (set_maps (alter (insert key value) l (maps w)) w)
               = <[key := value]> (entries w)).
  { rewrite (entries_after_write w key value l d HD Hd).
    unfold entries. rewrite HD, Hd. reflexivity. }
  split; [exact Hq|]. split; [exact He|].
  rewrite Get_spec by exact Hq. rewrite He, lookup_insert_eq. reflexivity.
Qed.

(** C6.  In every state of a map made by [NewMap] and used through its
    methods, a key that is absent reads as [(zero, false)], and
    [Set(key, value)] returns, after which [Get(key)] returns
    [(value, true)]. *)
Theorem Get_absent_and_after_Set w key value :
  made w ->
  (entries w !! key = None -> Get key w = Returned (zero, false) w) /\
  exists w', Set_ key value w = Returned tt w' /\
             made w' /\
             entries w' = <[key := value]> (entries w) /\
             Get key w' = Returned (value, true) w'.
Proof.
  intros Hm. destruct (made_invariant w Hm) as (Hq & Ha & Hn). split.
  - apply Get_absent. exact Hq.
  - destruct (Set_then_Get w key value Hq Ha Hn) as (w' & Hset & _ & He & Hget).
    exists w'. split; [exact Hset|]. split; [|split; assumption].
    apply (made_call (CallSet key value) w w' Hm). simpl. rewrite Hset. reflexivity.
Qed.

(** C8.  [Empty] points [Data] at a newly made empty map object and
    writes to no other: afterwards [Len] is 0, the new object is in the
    store and holds no entry, it was not in the store before, and every map
    object of the store before the call, the old [Data] included, still has
    exactly the entries it had. *)
Theorem Empty_replaces_without_mutating w :
  quiescent w ->
  exists w' l',
    Empty w = Returned tt w' /\
    quiescent w' /\
    Len w' = Returned 0 w' /\
    Data w' = Some l' /\
    maps w' !! l' = Some ∅ /\
    entries w' = ∅ /\
    maps w !! l' = None /\
    forall l d, maps w !! l = Some d -> maps w' !! l = Some d.
Proof.
  intros Hq.
  assert (Hf : maps w !! fresh (dom (maps w)) = None).
  { apply not_elem_of_dom. apply is_fresh. }
  eexists _, _. split; [apply Empty_spec; exact Hq|].
  split; [reflexivity|]. split.
  - rewrite Len_spec by reflexivity. unfold entries; simpl.
    rewrite lookup_insert_eq. reflexivity.
  - split; [reflexivity|]. simpl.
    split; [apply lookup_insert_eq|]. split.
    + unfold entries; simpl. rewrite lookup_insert_eq. reflexivity.
    + split; [exact Hf|].
      intros l d Hl. rewrite lookup_insert_ne; [exact Hl|].
      intros Heq. rewrite <- Heq in Hl. congruence.
Qed.

(** C10.  On the zero-value [Map] (nil [Data]) the reads succeed: [Get]
    gives [(zero, false)], [Len] gives 0, [Keys], [Values] and [Items] give
    empty slices; [Set] panics on the assignment into the nil map and
    leaves the map as it was.  On a map built by [NewMap] the same [Set]
    returns and the key then reads back. *)
Theorem zero_Map_reads_but_Set_panics h key value :
  let w := zero_Map h in
  Get key w = Returned (zero, false) w /\
  Len w = Returned 0 w /\
  Keys w = Returned [] w /\
  Values w = Returned [] w /\
  Items w = Returned ([], []) w /\
  Set_ key value w = Panicked w /\
  exists w', Set_ key value (NewMap h) = Returned tt w' /\
             Get key w' = Returned (value, true) w'.
Proof.
  simpl. do 6 (split; [reflexivity|]).
  eexists. split; [reflexivity|].
  rewrite Get_spec by reflexivity.
  unfold entries; simpl. rewrite lookup_alter_eq, lookup_insert_eq; simpl.
  rewrite lookup_insert_eq. reflexivity.
Qed.

End MutexMapFacts.

Section MutexMapScenario.
Import MutexMap.

Lemma ab_built_by_Set :
  (Set_ "a"%string 1 ;; Set_ "b"%string 2)%go (NewMap ∅) = Returned tt ab.
Proof. vm_compute. reflexivity. Qed.

(** C2 (the code breaks it).  On the map [{a: 1, b: 2}], where [Get("a")]
    returns [(1, true)], the call [Pull("a")] neither returns [(1, true)] nor
    removes the key: it parks on the mutex it already holds.  Only the
    absent half of the claim holds: [Pull("c")] returns [(0, false)] and
    leaves the map as it was. *)
Theorem Pull_of_present_key_never_returns :
  Get "a"%string ab = Returned (1, true) ab /\
  Pull "a"%string ab = Blocked /\
  Pull "c"%string ab = Returned (0, false) ab.
Proof. vm_compute. repeat split. Qed.

(** The snapshots of [{a: 1, b: 2}]: the keys and the values pair up. *)
Example Items_of_ab :
  exists ks vs,
    Items ab = Returned (ks, vs) ab /\
    Keys ab = Returned ks ab /\
    Values ab = Returned vs ab /\
    zip ks vs ≡ₚ [("a"%string, 1); ("b"%string, 2)].
Proof.
  eexists _, _. split; [vm_compute; reflexivity|].
  split; [vm_compute; reflexivity|]. split; [vm_compute; reflexivity|].
  vm_compute. first [reflexivity | apply perm_swap].
Qed.

Lemma Pull_present_blocks_witness :
  Pull "b"%string ab = Blocked /\
  Get "b"%string ab = Returned (2, true) ab /\
  exists w', Delete "b"%string ab = Returned tt w'.
Proof.
  apply (Pull_present_blocks ab "b"%string 2); [reflexivity | vm_compute; reflexivity].
Defined.

Lemma ab_made : made ab.
Proof.
  apply (made_call (CallSet "b"%string 2)
           {| maps := {[ 1%positive := {[ "a"%string := 1 ]} ]};
              Data := Some 1%positive; lock := mutex_free |} ab).
  - apply (made_call (CallSet "a"%string 1) (NewMap ∅)); [apply made_NewMap|].
    vm_compute. reflexivity.
  - vm_compute. reflexivity.
Defined.

Lemma Get_absent_and_after_Set_witness :
  Get "c"%string ab = Returned (0, false) ab /\
  exists w', Set_ "c"%string 3 ab = Returned tt w' /\
             made w' /\
             entries w' = <["c"%string := 3]> (entries ab) /\
             Get "c"%string w' = Returned (3, true) w'.
Proof.
  destruct (Get_absent_and_after_Set ab "c"%string 3 ab_made) as [Habs Hset].
  split; [|exact Hset].
  apply Habs. vm_compute. reflexivity.
Defined.

Lemma Empty_replaces_without_mutating_witness :
  exists w' l',
    Empty ab = Returned tt w' /\
    quiescent w' /\
    Len w' = Returned 0 w' /\
    Data w' = Some l' /\
    maps w' !! l' = Some ∅ /\
    entries w' = ∅ /\
    maps ab !! l' = None /\
    forall l d, maps ab !! l = Some d -> maps w' !! l = Some d.
Proof. apply (Empty_replaces_without_mutating ab). reflexivity. Defined.

End MutexMapScenario.

(** * Facts about slices over a store *)

Lemma bind_Returned {W A B} (c : M W A) (k : A -> M W B) w a w' :
  c w = Returned a w' -> bind c k w = k a w'.
Proof. intros Hc. unfold bind. rewrite Hc. reflexivity. Qed.

Lemma bind_Panicked {W A B} (c : M W A) (k : A -> M W B) w w' :
  c w = Panicked w' -> bind c k w = Panicked w'.
Proof. intros Hc. unfold bind. rewrite Hc. reflexivity. Qed.

Lemma bind_gets {W A B} (f : W -> A) (k : A -> M W B) w :
  bind (gets f) k w = k (f w) w.
Proof. reflexivity. Qed.

Lemma wrap_int_small z : - 2 ^ 63 <= z <= max_int -> wrap_int z = z.
Proof.
  unfold wrap_int, max_int. intros Hz.
  rewrite Z.mod_small by lia. lia.
Qed.

Section GoSliceFacts.
Import GoSlice.
Context {T : Type} `{ZeroValue T}.
Variable slack : nat -> nat -> nat.
Context {L : Type}.
Implicit Types (w : World T L) (s : slice) (h : gmap loc (list T)).

Lemma view_agree h h' s : agree h h' s -> view h' s = view h s.
Proof. destruct s as [hd|]; simpl; [intros ->|]; reflexivity. Qed.

Lemma slice_ok_agree h h' s : agree h h' s -> slice_ok h s -> slice_ok h' s.
Proof. destruct s as [hd|]; simpl; [intros ->|]; trivial. Qed.

Lemma view_length h s :
  slice_ok h s -> length (view h s) = Z.to_nat (slice_len s).
Proof.
  destruct s as [hd|]; simpl; [|reflexivity].
  intros (arr & -> & Hcap & Hlen). simpl.
  rewrite length_take, length_drop. lia.
Qed.

Lemma reslice_spec h s lo hi :
  slice_ok h s -> 0 <= lo -> lo <= hi -> hi <= slice_len s ->
  exists s', reslice s lo hi = Some s' /\
             slice_ok h s' /\
             view h s' = take (Z.to_nat (hi - lo)) (drop (Z.to_nat lo) (view h s)) /\
             agree h h s' /\
             forall h', agree h h' s -> agree h h' s'.
Proof.
  intros Hok Hlo Hhi Hlen. unfold reslice.
  destruct s as [hd|]; simpl in *.
  - destruct Hok as (arr & Harr & Hcap & Hl).
    rewrite decide_True by lia.
    eexists. split; [reflexivity|]. simpl. split.
    + exists arr. split; [exact Harr|]. lia.
    + split; [|split; [reflexivity|intros h' Ha; exact Ha]].
      rewrite Harr; simpl.
      rewrite <- drop_drop.
      set (base := drop (off hd) arr).
      assert (Hd : drop (Z.to_nat lo) (take (len hd) base)
                   = take (len hd - Z.to_nat lo) (drop (Z.to_nat lo) base)).
      { rewrite take_drop_commute. f_equal. f_equal. lia. }
      rewrite Hd, take_take. f_equal. lia.
  - rewrite decide_True by lia.
    exists None. simpl. rewrite drop_nil, take_nil. auto.
Qed.

Lemma index_load_spec w s i :
  slice_ok (arrays w) s -> 0 <= i < slice_len s ->
  exists x, view (arrays w) s !! Z.to_nat i = Some x /\
            index_load s i w = Returned x w.
Proof.
  intros Hok Hi. unfold index_load. rewrite decide_True by exact Hi.
  destruct (lookup_lt_is_Some_2 (view (arrays w) s) (Z.to_nat i)) as [x Hx].
  { rewrite view_length by exact Hok. lia. }
  exists x. rewrite Hx. auto.
Qed.

Lemma index_load_out_of_range w s i :
  ~ (0 <= i < slice_len s) -> index_load s i w = Panicked w.
Proof. intros Hi. unfold index_load. rewrite decide_False by exact Hi. reflexivity. Qed.

Lemma kept_agree h h' e s :
  kept h h' e -> slice_ok h s ->
  (forall hd, s = Some hd -> e <> Some (ptr hd)) ->
  agree h h' s.
Proof.
  intros Hk Hok Hne. destruct s as [hd|]; simpl in *; [|trivial].
  destruct Hok as (arr & Harr & _).
  rewrite Harr. apply (Hk _ _ Harr). apply Hne. reflexivity.
Qed.

Lemma fresh_unused h : h !! fresh (dom h) = None.
Proof. apply not_elem_of_dom, is_fresh. Qed.

Lemma literal_spec w v :
  exists hd w',
    literal v w = Returned (Some hd) w' /\
    Data w' = Data w /\ lock w' = lock w /\
    slice_ok (arrays w') (Some hd) /\
    view (arrays w') (Some hd) = [v] /\
    arrays w !! ptr hd = None /\
    kept (arrays w) (arrays w') None.
Proof.
  unfold literal. eexists _, _. split; [reflexivity|]. simpl.
  pose proof (fresh_unused (arrays w)) as Hf.
  split; [reflexivity|]. split; [reflexivity|].
  split; [|split; [|split]].
  - exists [v]. rewrite lookup_insert_eq. simpl. repeat split; lia.
  - rewrite lookup_insert_eq. reflexivity.
  - exact Hf.
  - intros l arr Hl _. rewrite lookup_insert_ne; [exact Hl|].
    intros Heq. rewrite Heq in Hf. congruence.
Qed.

Lemma append_spec w s xs :
  slice_ok (arrays w) s ->
  exists s' w',
    append slack s xs w = Returned s' w' /\
    Data w' = Data w /\ lock w' = lock w /\
    slice_ok (arrays w') s' /\
    view (arrays w') s' = view (arrays w) s ++ xs /\
    kept (arrays w) (arrays w') (ptr <$> s).
Proof.
  intros Hok. unfold append.
  pose proof (fresh_unused (arrays w)) as Hf.
  destruct s as [hd|]; simpl in *.
  - destruct Hok as (arr & Harr & Hcap & Hlen).
    destruct (decide (len hd + length xs <= cap hd)%nat) as [Hfit|Hgrow].
    + eexists _, _. split; [reflexivity|]. simpl.
      split; [reflexivity|]. split; [reflexivity|].
      rewrite lookup_alter_eq, Harr. simpl.
      assert (Hw : write_at arr (off hd + len hd) xs
                   = take (off hd) arr ++ (take (len hd) (drop (off hd) arr) ++ xs)
                       ++ drop (off hd + len hd + length xs) arr).
      { unfold write_at. rewrite <- take_take_drop.
        rewrite <- !app_assoc. reflexivity. }
      split; [|split].
      * eexists. split; [reflexivity|].
        unfold write_at.
        rewrite !length_app, length_take, length_drop. lia.
      * rewrite Hw. rewrite drop_app_length' by (rewrite length_take; lia).
        rewrite take_app_length'; [reflexivity|].
        rewrite length_app, length_take, length_drop. lia.
      * intros l arr' Hl Hne. rewrite lookup_alter_ne; [exact Hl|].
        intros Heq. apply Hne. rewrite Heq. reflexivity.
    + eexists _, _. split; [reflexivity|]. simpl.
      split; [reflexivity|]. split; [reflexivity|].
      rewrite lookup_insert_eq, Harr. simpl.
      assert (Hv : length (take (len hd) (drop (off hd) arr)) = len hd).
      { rewrite length_take, length_drop. lia. }
      split; [|split].
      * eexists. split; [reflexivity|].
        unfold make_list.
        rewrite !length_app, Hv, length_replicate. lia.
      * rewrite app_assoc. apply take_app_length'.
        rewrite length_app, Hv. reflexivity.
      * intros l arr' Hl _. rewrite lookup_insert_ne; [exact Hl|].
        intros Heq. rewrite Heq in Hf. congruence.
  - destruct xs as [|x xs].
    + exists None, w. simpl. repeat split; auto.
      intros l arr Hl _. exact Hl.
    + eexists _, _. split; [reflexivity|]. simpl.
      split; [reflexivity|]. split; [reflexivity|].
      rewrite lookup_insert_eq. simpl.
      split; [|split].
      * eexists. split; [reflexivity|].
        unfold make_list. simpl.
        rewrite length_app, length_replicate. lia.
      * f_equal. apply take_app_length.
      * intros l arr' Hl _. rewrite lookup_insert_ne; [exact Hl|].
        intros Heq. rewrite Heq in Hf. congruence.
Qed.

Lemma index_store_spec w s i x :
  slice_ok (arrays w) s -> 0 <= i < slice_len s ->
  exists w',
    index_store s i x w = Returned tt w' /\
    Data w' = Data w /\ lock w' = lock w /\
    slice_ok (arrays w') s /\
    view (arrays w') s = <[Z.to_nat i := x]> (view (arrays w) s) /\
    kept (arrays w) (arrays w') (ptr <$> s).
Proof.
  intros Hok Hi. unfold index_store. rewrite decide_True by exact Hi.
  destruct s as [hd|]; simpl in *; [|lia].
  destruct Hok as (arr & Harr & Hcap & Hlen).
  eexists. split; [reflexivity|]. simpl.
  split; [reflexivity|]. split; [reflexivity|].
  rewrite lookup_alter_eq, Harr. simpl.
  split; [|split].
  - eexists. split; [reflexivity|]. rewrite length_insert. lia.
  - rewrite drop_insert_ge by lia. rewrite take_insert_lt by lia.
    f_equal. lia.
  - intros l arr' Hl Hne. rewrite lookup_alter_ne; [exact Hl|].
    intros Heq. apply Hne. rewrite Heq. reflexivity.
Qed.

Lemma index_store_out_of_range w s i x :
  ~ (0 <= i < slice_len s) -> index_store s i x w = Panicked w.
Proof. intros Hi. unfold index_store. rewrite decide_False by exact Hi. reflexivity. Qed.

(** ** The statements of the methods *)

Lemma assign_index_spec w index v :
  slice_ok (arrays w) (Data w) -> 0 <= index < slice_len (Data w) ->
  exists w',
    assign_index index v w = Returned tt w' /\
    Data w' = Data w /\ lock w' = lock w /\
    slice_ok (arrays w') (Data w') /\
    contents w' = <[Z.to_nat index := v]> (contents w).
Proof.
  intros Hok Hi. unfold assign_index. rewrite bind_gets.
  destruct (index_store_spec w (Data w) index v Hok Hi)
    as (w' & Hrun & HD & Hl & Hok' & Hv & _).
  exists w'. unfold contents. rewrite HD. auto.
Qed.

Lemma assign_index_out_of_range w index v :
  ~ (0 <= index < slice_len (Data w)) -> assign_index index v w = Panicked w.
Proof.
  intros Hi. unfold assign_index. rewrite bind_gets.
  apply index_store_out_of_range. exact Hi.
Qed.

Lemma assign_append_spec w v :
  slice_ok (arrays w) (Data w) ->
  exists w',
    assign_append slack v w = Returned tt w' /\
    lock w' = lock w /\
    slice_ok (arrays w') (Data w') /\
    contents w' = contents w ++ [v].
Proof.
  intros Hok. unfold assign_append. rewrite bind_gets.
  destruct (append_spec w (Data w) [v] Hok)
    as (r & w1 & Hrun & HD & Hl & Hok' & Hv & _).
  rewrite (bind_Returned _ _ _ _ _ Hrun).
  eexists. split; [reflexivity|]. simpl. auto.
Qed.

Lemma assign_delete_spec w index :
  well_formed w -> 0 <= index < slice_len (Data w) ->
  exists w',
    assign_delete slack index w = Returned tt w' /\
    lock w' = lock w /\
    well_formed w' /\
    contents w' = take (Z.to_nat index) (contents w)
                  ++ drop (S (Z.to_nat index)) (contents w).
Proof.
  intros [Hok Hint] Hi. unfold assign_delete. rewrite bind_gets.
  destruct (reslice_spec (arrays w) (Data w) 0 index Hok)
    as (a & Ha & Hoka & Hva & _ & _); [lia..|].
  unfold slice_expr at 1. unfold bind at 1. rewrite Ha.
  rewrite bind_gets.
  rewrite wrap_int_small by (unfold max_int in *; lia).
  destruct (reslice_spec (arrays w) (Data w) (index + 1) (slice_len (Data w)) Hok)
    as (b & Hb & Hokb & Hvb & _ & _); [lia..|].
  unfold slice_expr at 1. unfold bind at 1. rewrite Hb.
  rewrite bind_gets.
  destruct (append_spec w a (view (arrays w) b) Hoka)
    as (r & w1 & Hrun & HD & Hl & Hok' & Hv & _).
  rewrite (bind_Returned _ _ _ _ _ Hrun).
  eexists. split; [reflexivity|]. simpl.
  split; [exact Hl|].
  assert (Hc : view (arrays w1) r
               = take (Z.to_nat index) (contents w)
                 ++ drop (S (Z.to_nat index)) (contents w)).
  { rewrite Hv, Hva, Hvb. unfold contents.
    rewrite Z.sub_0_r, drop_0. f_equal.
    rewrite take_ge.
    - f_equal. lia.
    - rewrite length_drop, view_length by exact Hok. lia. }
  split; [|exact Hc].
  split; simpl; [exact Hok'|].
  pose proof (view_length _ _ Hok') as Hlen. rewrite Hc in Hlen.
  rewrite length_app, length_take, length_drop in Hlen.
  unfold contents in Hlen. rewrite (view_length _ _ Hok) in Hlen.
  assert (0 <= slice_len r) by (destruct r; simpl; lia).
  lia.
Qed.

Lemma assign_insert_spec w index v :
  slice_ok (arrays w) (Data w) -> 0 <= index <= slice_len (Data w) ->
  exists w',
    assign_insert slack index v w = Returned tt w' /\
    lock w' = lock w /\
    slice_ok (arrays w') (Data w') /\
    contents w' = take (Z.to_nat index) (contents w)
                  ++ v :: drop (Z.to_nat index) (contents w).
Proof.
  intros Hok Hi. unfold assign_insert. rewrite bind_gets.
  destruct (reslice_spec (arrays w) (Data w) 0 index Hok)
    as (a & Ha & Hoka & Hva & _ & Hsame); [lia..|].
  unfold slice_expr at 1. unfold bind at 1. rewrite Ha.
  destruct (literal_spec w v)
    as (lit & w1 & Hlit & HD1 & Hl1 & Hok1 & Hv1 & Hnew & Hk1).
  rewrite (bind_Returned _ _ _ _ _ Hlit).
  rewrite bind_gets. rewrite HD1.
  assert (Hag1 : agree (arrays w) (arrays w1) (Data w)).
  { apply (kept_agree _ _ None); [exact Hk1|exact Hok|]. intros; discriminate. }
  pose proof (slice_ok_agree _ _ _ Hag1 Hok) as HokD1.
  destruct (reslice_spec (arrays w1) (Data w) index (slice_len (Data w)) HokD1)
    as (b & Hb & Hokb & Hvb & _ & _); [lia..|].
  unfold slice_expr at 1. unfold bind at 1. rewrite Hb.
  rewrite bind_gets.
  destruct (append_spec w1 (Some lit) (view (arrays w1) b) Hok1)
    as (inner & w2 & Hin & HD2 & Hl2 & Hok2 & Hv2 & Hk2).
  rewrite (bind_Returned _ _ _ _ _ Hin).
  rewrite bind_gets.
  (* the prefix [a] still shows the same elements in the store of [w2] *)
  assert (Hag2 : agree (arrays w) (arrays w2) (Data w)).
  { destruct (Data w) as [hd|] eqn:HDw; simpl in *; [|trivial].
    destruct Hok as (arr & Harr & _).
    rewrite Harr. apply Hk2.
    - rewrite <- Harr. exact Hag1.
    - intros Heq. injection Heq as Heq. rewrite Heq in Hnew. congruence. }
  pose proof (Hsame _ Hag2) as Haga.
  pose proof (slice_ok_agree _ _ _ Haga Hoka) as Hoka2.
  destruct (append_spec w2 a (view (arrays w2) inner) Hoka2)
    as (r & w3 & Hout & HD3 & Hl3 & Hok3 & Hv3 & _).
  rewrite (bind_Returned _ _ _ _ _ Hout).
  eexists. split; [reflexivity|]. simpl.
  split; [congruence|]. split; [exact Hok3|].
  unfold contents. simpl.
  rewrite Hv3, (view_agree _ _ _ Haga), Hva, Hv2, Hv1, Hvb.
  rewrite (view_agree _ _ _ Hag1).
  rewrite Z.sub_0_r, drop_0. simpl. f_equal. f_equal.
  apply take_ge. rewrite length_drop, view_length by exact Hok. lia.
Qed.

End GoSliceFacts.

(** * Facts about the [sync.Mutex] [Slice] *)

Section MutexSliceFacts.
Import GoSlice MutexSlice.
Context {T : Type} `{ZeroValue T}.
Variable slack : nat -> nat -> nat.
Implicit Types (w : GoSlice.World T Mutex).

Lemma mutex_relock w :
  quiescent w -> set_lock mutex_free (set_lock {| held := true |} w) = w.
Proof. destruct w as [h d l]; unfold quiescent; simpl. intros ->. reflexivity. Qed.

(** [Lock(); defer Unlock(); body] from a quiescent world, for a body that
    leaves the lock alone. *)
Lemma locked_returns {A} (body : M (GoSlice.World T Mutex) A) w a w' :
  quiescent w ->
  body (set_lock {| held := true |} w) = Returned a w' ->
  lock w' = {| held := true |} ->
  (Lock ;; defer Unlock body) w = Returned a (set_lock mutex_free w').
Proof.
  intros Hq Hb Hl. unfold bind, Lock, Unlock, acquire, release, defer.
  rewrite Hq. simpl. rewrite Hb, Hl. reflexivity.
Qed.

Lemma locked_panics {A} (body : M (GoSlice.World T Mutex) A) w w' :
  quiescent w ->
  body (set_lock {| held := true |} w) = Panicked w' ->
  lock w' = {| held := true |} ->
  (Lock ;; defer Unlock body) w = Panicked (set_lock mutex_free w').
Proof.
  intros Hq Hb Hl. unfold bind, Lock, Unlock, acquire, release, defer.
  rewrite Hq. simpl. rewrite Hb, Hl. reflexivity.
Qed.

Lemma Slice_Len_spec w :
  quiescent w -> Len w = Returned (slice_len (Data w)) w.
Proof.
  intros Hq. unfold Len.
  rewrite (locked_returns _ w (slice_len (Data w)) (set_lock {| held := true |} w));
    [rewrite mutex_relock by exact Hq|..]; auto.
Qed.

Lemma Slice_Get_spec w index :
  quiescent w -> slice_ok (arrays w) (Data w) ->
  0 <= index < slice_len (Data w) ->
  exists x, contents w !! Z.to_nat index = Some x /\ Get index w = Returned x w.
Proof.
  intros Hq Hok Hi.
  destruct (index_load_spec (set_lock {| held := true |} w) (Data w) index Hok Hi)
    as (x & Hx & Hrun).
  exists x. split; [exact Hx|]. unfold Get.
  rewrite (locked_returns _ w x (set_lock {| held := true |} w));
    [rewrite mutex_relock by exact Hq|..]; auto.
Qed.

Lemma Slice_GetAll_spec w : quiescent w -> GetAll w = Returned (Data w) w.
Proof.
  intros Hq. unfold GetAll.
  rewrite (locked_returns _ w (Data w) (set_lock {| held := true |} w));
    [rewrite mutex_relock by exact Hq|..]; auto.
Qed.

(** [SafeGet] tests [index < 0 || index >= len(s.Data)] and so never
    indexes out of range. *)
Lemma Slice_SafeGet_out_of_range w index :
  quiescent w -> index < 0 \/ index >= slice_len (Data w) ->
  SafeGet index w = Returned (zero_value, false) w.
Proof.
  intros Hq Hi. unfold SafeGet.
  rewrite (locked_returns _ w (zero_value, false) (set_lock {| held := true |} w));
    [rewrite mutex_relock by exact Hq|..]; auto.
  rewrite bind_gets. simpl. rewrite decide_True by exact Hi. reflexivity.
Qed.

Lemma Slice_SafeGet_in_range w index :
  quiescent w -> slice_ok (arrays w) (Data w) ->
  0 <= index < slice_len (Data w) ->
  exists x, contents w !! Z.to_nat index = Some x /\
            SafeGet index w = Returned (x, true) w.
Proof.
  intros Hq Hok Hi.
  destruct (index_load_spec (set_lock {| held := true |} w) (Data w) index Hok Hi)
    as (x & Hx & Hrun).
  exists x. split; [exact Hx|]. unfold SafeGet.
  rewrite (locked_returns _ w (x, true) (set_lock {| held := true |} w));
    [rewrite mutex_relock by exact Hq|..]; auto.
  rewrite bind_gets. simpl. rewrite decide_False by lia.
  simpl in Hrun. rewrite (bind_Returned _ _ _ _ _ Hrun). reflexivity.
Qed.

(** The three bounds-checked mutators turn an invalid index down and touch
    nothing. *)
Lemma Slice_SafeInsert_rejects w index v :
  index < 0 \/ index > slice_len (Data w) ->
  SafeInsert slack index v w = Returned false w.
Proof.
  intros Hi. unfold SafeInsert. rewrite bind_gets.
  rewrite decide_True by exact Hi. reflexivity.
Qed.

Lemma Slice_SafeDelete_rejects w index :
  index < 0 \/ index >= slice_len (Data w) ->
  SafeDelete slack index w = Returned false w.
Proof.
  intros Hi. unfold SafeDelete. rewrite bind_gets.
  rewrite decide_True by exact Hi. reflexivity.
Qed.

Lemma Slice_SafeReplace_rejects w index v :
  quiescent w -> index < 0 \/ index >= slice_len (Data w) ->
  SafeReplace index v w = Returned false w.
Proof.
  intros Hq Hi. unfold SafeReplace.
  rewrite (locked_returns _ w false (set_lock {| held := true |} w));
    [rewrite mutex_relock by exact Hq|..]; auto.
  rewrite bind_gets. simpl. rewrite decide_True by exact Hi. reflexivity.
Qed.

Lemma Slice_Insert_spec w index v :
  quiescent w -> slice_ok (arrays w) (Data w) ->
  0 <= index <= slice_len (Data w) ->
  exists w',
    Insert slack index v w = Returned tt w' /\
    quiescent w' /\ slice_ok (arrays w') (Data w') /\
    contents w' = take (Z.to_nat index) (contents w)
                  ++ v :: drop (Z.to_nat index) (contents w).
Proof.
  intros Hq Hok Hi.
  destruct (assign_insert_spec slack (set_lock {| held := true |} w) index v Hok Hi)
    as (w' & Hrun & Hl & Hok' & Hc).
  exists (set_lock mutex_free w'). split.
  - unfold Insert. apply locked_returns; auto.
  - split; [reflexivity|]. split; [exact Hok'|exact Hc].
Qed.

Lemma Slice_Delete_spec w index :
  quiescent w -> well_formed w ->
  0 <= index < slice_len (Data w) ->
  exists w',
    Delete slack index w = Returned tt w' /\
    quiescent w' /\ well_formed w' /\
    contents w' = take (Z.to_nat index) (contents w)
                  ++ drop (S (Z.to_nat index)) (contents w).
Proof.
  intros Hq Hwf Hi.
  destruct (assign_delete_spec slack (set_lock {| held := true |} w) index Hwf Hi)
    as (w' & Hrun & Hl & Hwf' & Hc).
  exists (set_lock mutex_free w'). split.
  - unfold Delete. apply locked_returns; auto.
  - split; [reflexivity|]. split; [exact Hwf'|exact Hc].
Qed.

End MutexSliceFacts.

(** * Facts about the [sync.RWMutex] [Slice] *)

Section RWSliceFacts.
Import GoSlice RWSlice.
Context {T : Type} `{ZeroValue T}.
Variable slack : nat -> nat -> nat.
Implicit Types (w : GoSlice.World T RWMutex).

Lemma rw_relock w l :
  quiescent w -> set_lock rwmutex_free (set_lock l w) = w.
Proof. destruct w as [h d lk]; unfold quiescent; simpl. intros ->. reflexivity. Qed.

Lemma write_locked_returns {A} (body : M (GoSlice.World T RWMutex) A) w a w' :
  quiescent w ->
  body (set_lock {| writer := true; readers := 0 |} w) = Returned a w' ->
  lock w' = {| writer := true; readers := 0 |} ->
  (Lock ;; defer Unlock body) w = Returned a (set_lock rwmutex_free w').
Proof.
  intros Hq Hb Hl. unfold bind, Lock, Unlock, acquire, release, defer.
  rewrite Hq. simpl. rewrite Hb, Hl. reflexivity.
Qed.

Lemma write_locked_panics {A} (body : M (GoSlice.World T RWMutex) A) w w' :
  quiescent w ->
  body (set_lock {| writer := true; readers := 0 |} w) = Panicked w' ->
  lock w' = {| writer := true; readers := 0 |} ->
  (Lock ;; defer Unlock body) w = Panicked (set_lock rwmutex_free w').
Proof.
  intros Hq Hb Hl. unfold bind, Lock, Unlock, acquire, release, defer.
  rewrite Hq. simpl. rewrite Hb, Hl. reflexivity.
Qed.

Lemma read_locked_returns {A} (body : M (GoSlice.World T RWMutex) A) w a w' :
  quiescent w ->
  body (set_lock {| writer := false; readers := 1 |} w) = Returned a w' ->
  lock w' = {| writer := false; readers := 1 |} ->
  (RLock ;; defer RUnlock body) w = Returned a (set_lock rwmutex_free w').
Proof.
  intros Hq Hb Hl. unfold bind, RLock, RUnlock, acquire, release, defer.
  rewrite Hq. simpl. rewrite Hb, Hl. reflexivity.
Qed.

Lemma read_locked_panics {A} (body : M (GoSlice.World T RWMutex) A) w w' :
  quiescent w ->
  body (set_lock {| writer := false; readers := 1 |} w) = Panicked w' ->
  lock w' = {| writer := false; readers := 1 |} ->
  (RLock ;; defer RUnlock body) w = Panicked (set_lock rwmutex_free w').
Proof.
  intros Hq Hb Hl. unfold bind, RLock, RUnlock, acquire, release, defer.
  rewrite Hq. simpl. rewrite Hb, Hl. reflexivity.
Qed.

Lemma RW_Len_spec w :
  quiescent w -> Len w = Returned (slice_len (Data w)) w.
Proof.
  intros Hq. unfold Len.
  rewrite (read_locked_returns _ w (slice_len (Data w))
             (set_lock {| writer := false; readers := 1 |} w));
    [rewrite rw_relock by exact Hq|..]; auto.
Qed.

Lemma RW_Get_spec w index :
  quiescent w -> slice_ok (arrays w) (Data w) ->
  0 <= index < slice_len (Data w) ->
  exists x, contents w !! Z.to_nat index = Some x /\ Get index w = Returned x w.
Proof.
  intros Hq Hok Hi.
  destruct (index_load_spec (set_lock {| writer := false; readers := 1 |} w)
              (Data w) index Hok Hi) as (x & Hx & Hrun).
  exists x. split; [exact Hx|]. unfold Get.
  rewrite (read_locked_returns _ w x (set_lock {| writer := false; readers := 1 |} w));
    [rewrite rw_relock by exact Hq|..]; auto.
Qed.

Lemma RW_GetAll_spec w : quiescent w -> GetAll w = Returned (Data w) w.
Proof.
  intros Hq. unfold GetAll.
  rewrite (read_locked_returns _ w (Data w)
             (set_lock {| writer := false; readers := 1 |} w));
    [rewrite rw_relock by exact Hq|..]; auto.
Qed.

(** This variant's [Insert] is the assignment [s.Data[index] = v]. *)
Lemma RW_Insert_spec w (index : N) v :
  quiescent w -> slice_ok (arrays w) (Data w) ->
  Z.of_N index < slice_len (Data w) ->
  exists w',
    Insert index v w = Returned tt w' /\
    quiescent w' /\ slice_ok (arrays w') (Data w') /\
    Data w' = Data w /\
    contents w' = <[N.to_nat index := v]> (contents w).
Proof.
  intros Hq Hok Hi.
  destruct (assign_index_spec (set_lock {| writer := true; readers := 0 |} w)
              (Z.of_N index) v Hok) as (w' & Hrun & HD & Hl & Hok' & Hc); [simpl; lia|].
  exists (set_lock rwmutex_free w'). split.
  - unfold Insert. apply write_locked_returns; auto.
  - split; [reflexivity|]. split; [exact Hok'|]. split; [exact HD|].
    simpl in Hc.
    replace (Z.to_nat (Z.of_N index)) with (N.to_nat index) in Hc by lia.
    exact Hc.
Qed.

Lemma RW_Insert_at_end w (index : N) v :
  quiescent w -> Z.of_N index >= slice_len (Data w) ->
  Insert index v w = Panicked w.
Proof.
  intros Hq Hi. unfold Insert.
  rewrite (write_locked_panics _ w (set_lock {| writer := true; readers := 0 |} w));
    [rewrite rw_relock by exact Hq|..]; auto.
  apply assign_index_out_of_range. simpl. lia.
Qed.

(** [SafeGet] tests [index > len(s.Data)] only: an index equal to the
    length, or a negative one, reaches [s.Data[index]]. *)
Lemma RW_SafeGet_unguarded w index :
  quiescent w -> index < 0 \/ index = slice_len (Data w) ->
  SafeGet index w = Panicked w.
Proof.
  intros Hq Hi. unfold SafeGet.
  rewrite (read_locked_panics _ w (set_lock {| writer := false; readers := 1 |} w));
    [rewrite rw_relock by exact Hq|..]; auto.
  rewrite bind_gets. simpl.
  assert (0 <= slice_len (Data w)) by (destruct (Data w); simpl; lia).
  rewrite decide_False by lia.
  rewrite (bind_Panicked _ _ _ (set_lock {| writer := false; readers := 1 |} w));
    [reflexivity|].
  apply index_load_out_of_range. simpl. lia.
Qed.

(** [SafeInsert] tests [index >= len(s.Data)] only: a negative index
    reaches [s.Data[index] = v] with the write lock taken and no deferred
    unlock. *)
Lemma RW_SafeInsert_negative w index v :
  quiescent w -> index < 0 ->
  SafeInsert index v w
  = Panicked (set_lock {| writer := true; readers := 0 |} w).
Proof.
  intros Hq Hi. unfold SafeInsert, bind, RLock, RUnlock, Lock, acquire, release, gets.
  rewrite Hq. simpl.
  assert (0 <= slice_len (Data w)) by (destruct (Data w); simpl; lia).
  rewrite decide_False by lia. simpl.
  rewrite assign_index_out_of_range by (simpl; lia).
  destruct w; reflexivity.
Qed.

(** Past the end [SafeInsert] answers false and writes nothing, but returns
    with the read lock still taken. *)
Lemma RW_SafeInsert_past_end w index v :
  quiescent w -> index >= slice_len (Data w) ->
  SafeInsert index v w
  = Returned false (set_lock {| writer := false; readers := 1 |} w).
Proof.
  intros Hq Hi. unfold SafeInsert, bind, RLock, acquire, gets.
  rewrite Hq. simpl. rewrite decide_True by exact Hi. reflexivity.
Qed.

End RWSliceFacts.

(** * The behaviour of the sequence operations *)

Lemma lookup_inserted_before {A} (c : list A) (i j : nat) (v : A) :
  (j < i <= length c)%nat -> (take i c ++ v :: drop i c) !! j = c !! j.
Proof.
  intros Hj. rewrite lookup_app_l by (rewrite length_take; lia).
  apply lookup_take_lt. lia.
Qed.

Lemma lookup_inserted_at {A} (c : list A) (i : nat) (v : A) :
  (i <= length c)%nat -> (take i c ++ v :: drop i c) !! i = Some v.
Proof.
  intros Hi. rewrite lookup_app_r by (rewrite length_take; lia).
  rewrite length_take, Nat.min_l by lia.
  rewrite Nat.sub_diag. reflexivity.
Qed.

Lemma lookup_inserted_after {A} (c : list A) (i j : nat) (v : A) :
  (i <= j)%nat -> (i <= length c)%nat ->
  (take i c ++ v :: drop i c) !! S j = c !! j.
Proof.
  intros Hj Hi. rewrite lookup_app_r by (rewrite length_take; lia).
  rewrite length_take, Nat.min_l by lia.
  replace (S j - i)%nat with (S (j - i)) by lia. simpl.
  rewrite lookup_drop. f_equal. lia.
Qed.

Section SliceClaims.
Import GoSlice.
Context {T : Type} `{ZeroValue T}.
Variable slack : nat -> nat -> nat.

(** C3, as amended.  Under the [sync.Mutex] variant, for every index in
    [[0, Len()]], [Insert(index, value)] puts the value at position [index],
    keeps the elements before it where they were and moves every element
    from [index] on one position to the right: [Len()] grows by 1 and no
    element is lost.  Under the [sync.RWMutex] variants [Insert] is the
    assignment [s.Data[index] = v]: for an index below [Len()] it replaces
    the element at [index], leaving [Len()] and the other elements as they
    were, and for an index from [Len()] on it panics, the sequence
    untouched. *)
Theorem Insert_shifts_under_Mutex_overwrites_under_RWMutex :
  (forall (w : World T Mutex) (index : Z) (v : T),
     MutexSlice.quiescent w -> slice_ok (arrays w) (Data w) ->
     0 <= index <= slice_len (Data w) ->
     exists w',
       MutexSlice.Insert slack index v w = Returned tt w' /\
       MutexSlice.Len w' = Returned (slice_len (Data w) + 1) w' /\
       contents w' = take (Z.to_nat index) (contents w)
                     ++ v :: drop (Z.to_nat index) (contents w) /\
       contents w' !! Z.to_nat index = Some v /\
       (forall j, (j < Z.to_nat index)%nat -> contents w' !! j = contents w !! j) /\
       (forall j, (Z.to_nat index <= j)%nat -> contents w' !! S j = contents w !! j))
  /\
  (forall (w : World T RWMutex) (index : N) (v : T),
     RWSlice.quiescent w -> slice_ok (arrays w) (Data w) ->
     (Z.of_N index < slice_len (Data w) ->
      exists w',
        RWSlice.Insert index v w = Returned tt w' /\
        RWSlice.Len w' = Returned (slice_len (Data w)) w' /\
        contents w' = <[N.to_nat index := v]> (contents w)) /\
     (Z.of_N index >= slice_len (Data w) ->
      RWSlice.Insert index v w = Panicked w)).
Proof.
  split.
  - intros w index v Hq Hok Hi.
    destruct (Slice_Insert_spec slack w index v Hq Hok Hi)
      as (w' & Hrun & Hq' & Hok' & Hc).
    pose proof (view_length _ _ Hok) as Hlen. fold (contents w) in Hlen.
    pose proof (view_length _ _ Hok') as Hlen'. fold (contents w') in Hlen'.
    assert (Hn : slice_len (Data w') = slice_len (Data w) + 1).
    { assert (0 <= slice_len (Data w')) by (destruct (Data w'); simpl; lia).
      rewrite Hc in Hlen'.
      rewrite length_app, length_take in Hlen'. simpl in Hlen'.
      rewrite length_drop in Hlen'. lia. }
    exists w'. split; [exact Hrun|]. split.
    { rewrite Slice_Len_spec by exact Hq'. rewrite Hn. reflexivity. }
    split; [exact Hc|]. rewrite Hc. split; [|split].
    + apply lookup_inserted_at. lia.
    + intros j Hj. apply lookup_inserted_before. lia.
    + intros j Hj. apply lookup_inserted_after; lia.
  - intros w index v Hq Hok. split.
    + intros Hi.
      destruct (RW_Insert_spec w index v Hq Hok Hi)
        as (w' & Hrun & Hq' & Hok' & HD & Hc).
      exists w'. split; [exact Hrun|]. split; [|exact Hc].
      rewrite RW_Len_spec by exact Hq'. rewrite HD. reflexivity.
    + intros Hi. apply RW_Insert_at_end; assumption.
Qed.

(** C7.  For a valid index, [Delete(index)] returns; afterwards [Len()] is
    one less, the elements before [index] are where they were, and each
    element that was at a position [j > index] is at position [j - 1]. *)
Theorem Delete_shifts_down (w : World T Mutex) (index : Z) :
  MutexSlice.quiescent w -> well_formed w ->
  0 <= index < slice_len (Data w) ->
  exists w',
    MutexSlice.Delete slack index w = Returned tt w' /\
    MutexSlice.Len w = Returned (slice_len (Data w)) w /\
    MutexSlice.Len w' = Returned (slice_len (Data w) - 1) w' /\
    contents w' = take (Z.to_nat index) (contents w)
                  ++ drop (S (Z.to_nat index)) (contents w) /\
    (forall j, (j < Z.to_nat index)%nat -> contents w' !! j = contents w !! j) /\
    (forall j, (Z.to_nat index < j)%nat ->
               contents w' !! (j - 1)%nat = contents w !! j).
Proof.
  intros Hq Hwf Hi.
  destruct (Slice_Delete_spec slack w index Hq Hwf Hi)
    as (w' & Hrun & Hq' & Hwf' & Hc).
  destruct Hwf as [Hok _]. destruct Hwf' as [Hok' _].
  pose proof (view_length _ _ Hok) as Hlen. fold (contents w) in Hlen.
  pose proof (view_length _ _ Hok') as Hlen'. fold (contents w') in Hlen'.
  assert (Hn : slice_len (Data w') = slice_len (Data w) - 1).
  { assert (0 <= slice_len (Data w')) by (destruct (Data w'); simpl; lia).
    rewrite Hc in Hlen'.
    rewrite length_app, length_take, length_drop in Hlen'. lia. }
  exists w'. split; [exact Hrun|].
  split; [apply Slice_Len_spec; exact Hq|]. split.
  { rewrite Slice_Len_spec by exact Hq'. rewrite Hn. reflexivity. }
  split; [exact Hc|]. rewrite Hc, <- delete_take_drop. split.
  - intros j Hj. apply list_lookup_delete_lt. exact Hj.
  - intros j Hj. rewrite list_lookup_delete_ge by lia. f_equal. lia.
Qed.

(** C9.  [GetAll] hands out the slice header held in [Data], not a copy of
    the elements: under either lock, an element assigned through the
    returned slice is what [Get] returns at that index afterwards, and the
    guarded sequence is changed at that index and nowhere else. *)
Theorem GetAll_shares_the_backing_array :
  (forall (w : World T Mutex) (i : Z) (x : T),
     MutexSlice.quiescent w -> slice_ok (arrays w) (Data w) ->
     0 <= i < slice_len (Data w) ->
     exists all w',
       MutexSlice.GetAll w = Returned all w /\
       index_store all i x w = Returned tt w' /\
       MutexSlice.Get i w' = Returned x w' /\
       contents w' = <[Z.to_nat i := x]> (contents w))
  /\
  (forall (w : World T RWMutex) (i : Z) (x : T),
     RWSlice.quiescent w -> slice_ok (arrays w) (Data w) ->
     0 <= i < slice_len (Data w) ->
     exists all w',
       RWSlice.GetAll w = Returned all w /\
       index_store all i x w = Returned tt w' /\
       RWSlice.Get i w' = Returned x w' /\
       contents w' = <[Z.to_nat i := x]> (contents w)).
Proof.
  split; intros w i x Hq Hok Hi;
    destruct (index_store_spec w (Data w) i x Hok Hi)
      as (w' & Hrun & HD & Hl & Hok' & Hv & _);
    rewrite <- HD in Hok';
    assert (Hc : contents w' = <[Z.to_nat i := x]> (contents w))
      by (unfold contents; rewrite HD; exact Hv);
    assert (Hx : contents w' !! Z.to_nat i = Some x)
      by (rewrite Hc; apply list_lookup_insert_eq;
          unfold contents; rewrite view_length by exact Hok; lia);
    exists (Data w), w'.
  - split; [apply Slice_GetAll_spec; exact Hq|]. split; [exact Hrun|].
    split; [|exact Hc].
    destruct (Slice_Get_spec w' i) as (y & Hy & Hget);
      [unfold MutexSlice.quiescent in *; congruence | exact Hok'
      | rewrite HD; exact Hi |].
    rewrite Hget. congruence.
  - split; [apply RW_GetAll_spec; exact Hq|]. split; [exact Hrun|].
    split; [|exact Hc].
    destruct (RW_Get_spec w' i) as (y & Hy & Hget);
      [unfold RWSlice.quiescent in *; congruence | exact Hok'
      | rewrite HD; exact Hi |].
    rewrite Hget. congruence.
Qed.

End SliceClaims.

(** * The operations run on [[10, 20, 30]] *)

Section SliceScenario.
Import GoSlice.

Lemma s123_well_formed : well_formed s123.
Proof.
  split; [|vm_compute; discriminate].
  exists [10; 20; 30]. simpl. split; [reflexivity|lia].
Qed.

Lemma rw123_slice_ok : slice_ok (arrays rw123) (Data rw123).
Proof. exists [10; 20; 30]. simpl. split; [reflexivity|lia]. Qed.

(** C1 (the code breaks it).  On [[10, 20, 30]] the [sync.RWMutex] variant
    of [SafeGet], whose test is [index > len(s.Data)], panics at the index
    [Len()] and at a negative index instead of returning [(0, false)]; the
    [sync.Mutex] variant, whose test is [index < 0 || index >= len(s.Data)],
    returns [(0, false)] at both and the element with [true] inside the
    bounds. *)
Theorem SafeGet_RWMutex_variant_panics_at_Len :
  RWSlice.SafeGet 3 rw123 = Panicked rw123 /\
  RWSlice.SafeGet (-1) rw123 = Panicked rw123 /\
  RWSlice.SafeGet 4 rw123 = Returned (0, false) rw123 /\
  MutexSlice.SafeGet 3 s123 = Returned (0, false) s123 /\
  MutexSlice.SafeGet (-1) s123 = Returned (0, false) s123 /\
  MutexSlice.SafeGet 2 s123 = Returned (30, true) s123.
Proof. vm_compute. repeat split. Qed.

(** C4 (the code breaks it).  On [[10, 20, 30]] the [sync.RWMutex] variant
    of [SafeInsert], whose test is [index >= len(s.Data)], panics at the
    index -1 instead of returning false, and leaves the write lock taken;
    past the end it returns false with the elements untouched.  The
    [sync.Mutex] variants of [SafeInsert], [SafeReplace] and [SafeDelete]
    return false at -1 and leave the sequence as it was. *)
Theorem SafeInsert_RWMutex_variant_panics_below_zero :
  RWSlice.SafeInsert (-1) 99 rw123
    = Panicked (seq123 {| writer := true; readers := 0 |}) /\
  (exists w', RWSlice.SafeInsert 4 99 rw123 = Returned false w' /\
              contents w' = [10; 20; 30]) /\
  MutexSlice.SafeInsert grow_double (-1) 99 s123 = Returned false s123 /\
  MutexSlice.SafeReplace (-1) 99 s123 = Returned false s123 /\
  MutexSlice.SafeDelete grow_double (-1) s123 = Returned false s123.
Proof.
  split; [vm_compute; reflexivity|]. split.
  - eexists. split; [vm_compute; reflexivity|]. vm_compute. reflexivity.
  - vm_compute. repeat split.
Qed.

(** C3 fails as stated: the [sync.RWMutex] variant's [Insert(1, 99)] on
    [[10, 20, 30]] gives [[10, 99, 30]]: [Len()] is still 3 and the element
    20 is gone. *)
Lemma Insert_RWMutex_variant_overwrites :
  (exists w', RWSlice.Insert 1 99 rw123 = Returned tt w' /\
              contents w' = [10; 99; 30] /\
              RWSlice.Len w' = Returned 3 w') /\
  ~ (exists w', RWSlice.Insert 1 99 rw123 = Returned tt w' /\
                contents w' = take 1 (contents rw123)
                              ++ 99 :: drop 1 (contents rw123)).
Proof.
  split.
  - eexists. split; [vm_compute; reflexivity|].
    split; vm_compute; reflexivity.
  - intros (w' & Hrun & Hc). vm_compute in Hrun.
    injection Hrun as <-. vm_compute in Hc. discriminate.
Qed.

Lemma Insert_shifts_under_Mutex_overwrites_under_RWMutex_witness :
  (exists w',
     MutexSlice.Insert grow_double 1 99 s123 = Returned tt w' /\
     MutexSlice.Len w' = Returned 4 w' /\
     contents w' = [10; 99; 20; 30]) /\
  (exists w',
     RWSlice.Insert 1 99 rw123 = Returned tt w' /\
     RWSlice.Len w' = Returned 3 w' /\
     contents w' = [10; 99; 30]) /\
  RWSlice.Insert 3 99 rw123 = Panicked rw123.
Proof.
  destruct (Insert_shifts_under_Mutex_overwrites_under_RWMutex (T := Z) grow_double)
    as [Hm Hrw].
  split; [|split].
  - destruct (Hm s123 1 99 eq_refl (proj1 s123_well_formed))
      as (w' & Hrun & Hlen & Hc & _); [simpl; lia|].
    exists w'. split; [exact Hrun|]. split; [exact Hlen|exact Hc].
  - destruct (Hrw rw123 1%N 99 eq_refl rw123_slice_ok) as [Hin _].
    destruct Hin as (w' & Hrun & Hlen & Hc); [simpl; lia|].
    exists w'. split; [exact Hrun|]. split; [exact Hlen|exact Hc].
  - destruct (Hrw rw123 3%N 99 eq_refl rw123_slice_ok) as [_ Hout].
    apply Hout. simpl. lia.
Defined.

Lemma Delete_shifts_down_witness :
  exists w',
    MutexSlice.Delete grow_double 1 s123 = Returned tt w' /\
    MutexSlice.Len w' = Returned 2 w' /\
    contents w' = [10; 30].
Proof.
  destruct (Delete_shifts_down grow_double s123 1 eq_refl s123_well_formed)
    as (w' & Hrun & _ & Hlen & Hc & _); [simpl; lia|].
  exists w'. split; [exact Hrun|]. split; [exact Hlen|exact Hc].
Defined.

Lemma GetAll_shares_the_backing_array_witness :
  (exists all w',
     MutexSlice.GetAll s123 = Returned all s123 /\
     index_store all 1 99 s123 = Returned tt w' /\
     MutexSlice.Get 1 w' = Returned 99 w') /\
  (exists all w',
     RWSlice.GetAll rw123 = Returned all rw123 /\
     index_store all 1 99 rw123 = Returned tt w' /\
     RWSlice.Get 1 w' = Returned 99 w').
Proof.
  destruct (GetAll_shares_the_backing_array (T := Z)) as [Hm Hrw].
  split.
  - destruct (Hm s123 1 99 eq_refl (proj1 s123_well_formed))
      as (all & w' & Hall & Hst & Hget & _); [simpl; lia|].
    exists all, w'. auto.
  - destruct (Hrw rw123 1 99 eq_refl rw123_slice_ok)
      as (all & w' & Hall & Hst & Hget & _); [simpl; lia|].
    exists all, w'. auto.
Defined.

(** The scenario of the sequence: [Delete(1)] on [[10, 20, 30]] leaves
    [[10, 30]], on which [SafeDelete(5)] answers false and changes nothing. *)
Example delete_then_safe_delete :
  exists w',
    MutexSlice.Delete grow_double 1 s123 = Returned tt w' /\
    contents w' = [10; 30] /\
    MutexSlice.SafeDelete grow_double 5 w' = Returned false w'.
Proof.
  eexists. split; [vm_compute; reflexivity|].
  split; vm_compute; reflexivity.
Qed.

(** The early return of the [sync.RWMutex] variant's [SafeInsert] keeps the
    read lock: the next writer parks. *)
Example read_lock_left_taken :
  exists w',
    RWSlice.SafeInsert 4 99 rw123 = Returned false w' /\
    RWSlice.Append grow_double 40 w' = Blocked.
Proof. eexists. split; vm_compute; reflexivity. Qed.

End SliceScenario.

(** * More about [Map]: snapshots, deletion, overwriting *)

Lemma store_at_middle {A} (pre rest : list A) (old x : A) :
  store_at (pre ++ old :: rest) (Z.of_nat (length pre)) x = Some (pre ++ x :: rest).
Proof.
  unfold store_at. rewrite decide_True.
  - rewrite Nat2Z.id. f_equal.
    rewrite insert_app_r_alt by lia. rewrite Nat.sub_diag. reflexivity.
  - rewrite length_app. simpl. lia.
Qed.

Section MutexMapSnapshots.
Import MutexMap.
Context {K : Type} `{Countable K} `{ZeroValue K}.
Context {V : Type} `{ZeroValue V}.
Implicit Types (w : World (K := K) (V := V)) (key : K) (value : V).

(** The loops fill the slots from [index] on, one entry per slot, and never
    index out of range when there is a slot for every entry. *)
Lemma keys_loop_fills (es : list (K * V)) (pre rest : list K) :
  (length es <= length rest)%nat ->
  keys_loop es (pre ++ rest) (Z.of_nat (length pre))
  = Some (pre ++ es.*1 ++ drop (length es) rest).
Proof.
  revert pre rest. induction es as [|[k v] es IH]; intros pre rest Hlen; simpl.
  - rewrite drop_0. reflexivity.
  - destruct rest as [|old rest]; simpl in Hlen; [lia|].
    rewrite store_at_middle.
    replace (Z.of_nat (length pre) + 1) with (Z.of_nat (length (pre ++ [k])))
      by (rewrite length_app; simpl; lia).
    replace (pre ++ k :: rest) with ((pre ++ [k]) ++ rest)
      by (rewrite <- app_assoc; reflexivity).
    rewrite IH by lia. rewrite <- !app_assoc. reflexivity.
Qed.

Lemma values_loop_fills (es : list (K * V)) (pre rest : list V) :
  (length es <= length rest)%nat ->
  values_loop es (pre ++ rest) (Z.of_nat (length pre))
  = Some (pre ++ es.*2 ++ drop (length es) rest).
Proof.
  revert pre rest. induction es as [|[k v] es IH]; intros pre rest Hlen; simpl.
  - rewrite drop_0. reflexivity.
  - destruct rest as [|old rest]; simpl in Hlen; [lia|].
    rewrite store_at_middle.
    replace (Z.of_nat (length pre) + 1) with (Z.of_nat (length (pre ++ [v])))
      by (rewrite length_app; simpl; lia).
    replace (pre ++ v :: rest) with ((pre ++ [v]) ++ rest)
      by (rewrite <- app_assoc; reflexivity).
    rewrite IH by lia. rewrite <- !app_assoc. reflexivity.
Qed.

Lemma items_loop_fills (es : list (K * V)) (kpre krest : list K)
    (vpre vrest : list V) :
  length kpre = length vpre ->
  (length es <= length krest)%nat -> (length es <= length vrest)%nat ->
  items_loop es (kpre ++ krest) (vpre ++ vrest) (Z.of_nat (length kpre))
  = Some (kpre ++ es.*1 ++ drop (length es) krest,
          vpre ++ es.*2 ++ drop (length es) vrest).
Proof.
  revert kpre krest vpre vrest.
  induction es as [|[k v] es IH]; intros kpre krest vpre vrest Hpre Hk Hv; simpl.
  - rewrite !drop_0. reflexivity.
  - destruct krest as [|kold krest]; simpl in Hk; [lia|].
    destruct vrest as [|vold vrest]; simpl in Hv; [lia|].
    rewrite store_at_middle. rewrite Hpre, store_at_middle.
    replace (Z.of_nat (length vpre) + 1) with (Z.of_nat (length (kpre ++ [k])))
      by (rewrite length_app; simpl; lia).
    replace (kpre ++ k :: krest) with ((kpre ++ [k]) ++ krest)
      by (rewrite <- app_assoc; reflexivity).
    replace (vpre ++ v :: vrest) with ((vpre ++ [v]) ++ vrest)
      by (rewrite <- app_assoc; reflexivity).
    rewrite IH by (rewrite ?length_app; simpl; lia).
    rewrite <- !app_assoc. reflexivity.
Qed.

Lemma make_list_whole {A} `{ZeroValue A} (es : list (K * V)) :
  drop (length es) (make_list (A := A) (length es)) = [].
Proof. apply drop_ge. unfold make_list. rewrite length_replicate. lia. Qed.

Ltac enter w :=
  destruct w as [? ? ?]; unfold quiescent, entries in *; simpl in *; subst;
  unfold Get, Pull, Delete, Set_, Len, Empty, Keys, Values, Items,
    Lock, Unlock, acquire, release, bind, defer, ret, gets, modify,
    map_read, map_write, map_delete, map_len, make_map, range, lift_option,
    entries, set_lock, set_Data, set_maps, mutex_free;
  simpl.

Lemma Keys_spec w :
  quiescent w -> Keys w = Returned (map_to_list (entries w)).*1 w.
Proof.
  intros Hq.
  pose proof (keys_loop_fills (map_to_list (entries w)) []
                (make_list (length (map_to_list (entries w))))) as Hloop.
  simpl in Hloop. rewrite make_list_whole, app_nil_r in Hloop.
  rewrite length_map_to_list in Hloop.
  specialize (Hloop ltac:(unfold make_list; rewrite length_replicate; lia)).
  change (Z.of_nat 0) with 0 in Hloop.
  revert Hloop. enter w. rewrite Nat2Z.id. intros ->. reflexivity.
Qed.

Lemma Values_spec w :
  quiescent w -> Values w = Returned (map_to_list (entries w)).*2 w.
Proof.
  intros Hq.
  pose proof (values_loop_fills (map_to_list (entries w)) []
                (make_list (length (map_to_list (entries w))))) as Hloop.
  simpl in Hloop. rewrite make_list_whole, app_nil_r in Hloop.
  rewrite length_map_to_list in Hloop.
  specialize (Hloop ltac:(unfold make_list; rewrite length_replicate; lia)).
  change (Z.of_nat 0) with 0 in Hloop.
  revert Hloop. enter w. rewrite Nat2Z.id. intros ->. reflexivity.
Qed.

Lemma Items_spec w :
  quiescent w ->
  Items w = Returned ((map_to_list (entries w)).*1, (map_to_list (entries w)).*2) w.
Proof.
  intros Hq.
  pose proof (items_loop_fills (map_to_list (entries w)) []
                (make_list (length (map_to_list (entries w)))) []
                (make_list (length (map_to_list (entries w))))) as Hloop.
  simpl in Hloop. rewrite !make_list_whole, !app_nil_r in Hloop.
  rewrite length_map_to_list in Hloop.
  specialize (Hloop eq_refl
                ltac:(unfold make_list; rewrite length_replicate; lia)
                ltac:(unfold make_list; rewrite length_replicate; lia)).
  change (Z.of_nat 0) with 0 in Hloop.
  revert Hloop. enter w. rewrite Nat2Z.id. intros ->. reflexivity.
Qed.

End MutexMapSnapshots.

Section MutexMapMore.
Import MutexMap.
Context {K : Type} `{Countable K} `{ZeroValue K}.
Context {V : Type} `{ZeroValue V}.
Implicit Types (w : World (K := K) (V := V)) (key : K) (value : V).

(** X1.  [Keys] returns, leaves the map as it was, and its slice holds
    every key of the map exactly once: as many slots as [Len] counts, no
    slot left at the zero value by the loop. *)
Theorem Keys_holds_each_key_once w :
  quiescent w ->
  exists ks,
    Keys w = Returned ks w /\
    NoDup ks /\
    (forall k, k ∈ ks <-> is_Some (entries w !! k)) /\
    Len w = Returned (Z.of_nat (length ks)) w.
Proof.
  intros Hq. exists (map_to_list (entries w)).*1.
  split; [apply Keys_spec; exact Hq|].
  split; [apply NoDup_fst_map_to_list|]. split.
  - intros k. rewrite list_elem_of_fmap. split.
    + intros ([k' v] & -> & Hin). apply elem_of_map_to_list in Hin. eauto.
    + intros [v Hv]. exists (k, v). split; [reflexivity|].
      apply elem_of_map_to_list. exact Hv.
  - rewrite Len_spec by exact Hq.
    rewrite length_fmap, length_map_to_list. reflexivity.
Qed.

(** X2.  [Values] returns, leaves the map as it was, and its slice holds
    the values of the map's entries, one slot per entry: it is a
    rearrangement of the values listed entry by entry, a value stored under
    several keys appearing once for each of them. *)
Theorem Values_holds_the_values w :
  quiescent w ->
  exists vs,
    Values w = Returned vs w /\
    vs ≡ₚ (map_to_list (entries w)).*2 /\
    (forall v, v ∈ vs <-> exists k, entries w !! k = Some v) /\
    Len w = Returned (Z.of_nat (length vs)) w.
Proof.
  intros Hq. exists (map_to_list (entries w)).*2.
  split; [apply Values_spec; exact Hq|].
  split; [reflexivity|]. split.
  - intros v. rewrite list_elem_of_fmap. split.
    + intros ([k v'] & -> & Hin). apply elem_of_map_to_list in Hin. eauto.
    + intros [k Hk]. exists (k, v). split; [reflexivity|].
      apply elem_of_map_to_list. exact Hk.
  - rewrite Len_spec by exact Hq.
    rewrite length_fmap, length_map_to_list. reflexivity.
Qed.

(** X3.  [Items] returns two slices of the same length, the keys without
    repetition; [keys[i]] and [values[i]] are always a key and its value in
    the map, and every entry of the map sits at some index. *)
Theorem Items_pairs_are_the_entries w :
  quiescent w ->
  exists ks vs,
    Items w = Returned (ks, vs) w /\
    length ks = length vs /\
    NoDup ks /\
    (forall k v, (exists i : nat, ks !! i = Some k /\ vs !! i = Some v)
                 <-> entries w !! k = Some v).
Proof.
  intros Hq.
  exists (map_to_list (entries w)).*1, (map_to_list (entries w)).*2.
  split; [apply Items_spec; exact Hq|].
  split; [rewrite !length_fmap; reflexivity|].
  split; [apply NoDup_fst_map_to_list|].
  intros k v. rewrite <- elem_of_map_to_list, list_elem_of_lookup.
  split; intros [i Hi]; exists i.
  - destruct Hi as [Hk Hv].
    rewrite list_lookup_fmap in Hk. rewrite list_lookup_fmap in Hv.
    destruct (map_to_list (entries w) !! i) as [[k' v']|]; simpl in *;
      [congruence|discriminate].
  - rewrite !list_lookup_fmap, Hi. split; reflexivity.
Qed.

Lemma entries_after_delete w key l d :
  Data w = Some l -> maps w !! l = Some d ->
  entries (set_maps (alter (delete key) l (maps w)) w) = delete key d.
Proof.
  intros HD Hl. unfold entries; simpl. rewrite HD.
  rewrite lookup_alter_eq, Hl. reflexivity.
Qed.

Lemma Delete_runs w key :
  quiescent w -> allocated w ->
  exists w', Delete key w = Returned tt w' /\
             quiescent w' /\ allocated w' /\ Data w' = Data w /\
             entries w' = delete key (entries w).
Proof.
  intros Hq Ha. destruct (entries w !! key) as [v|] eqn:Hk.
  - destruct (Data w) as [l|] eqn:HD.
    + unfold allocated in Ha. rewrite HD in Ha. destruct Ha as [d Hd].
      eexists. split; [apply (Delete_present w key v l Hq HD Hk)|].
      split; [exact Hq|]. split; [|split; [exact HD|]].
      * unfold allocated; simpl. rewrite HD, lookup_alter_eq, Hd. simpl. eauto.
      * rewrite (entries_after_delete w key l d HD Hd).
        unfold entries. rewrite HD, Hd. reflexivity.
    + unfold entries in Hk. rewrite HD, lookup_empty in Hk. discriminate.
  - exists w. split; [apply Delete_absent; assumption|].
    split; [exact Hq|]. split; [exact Ha|]. split; [reflexivity|].
    symmetry. apply delete_id. exact Hk.
Qed.

(** X4.  [Delete(key)] returns whether or not the key is there, also on the
    zero-value [Map]; afterwards [Get(key)] finds nothing, every other key
    reads as before, and [Len] has dropped by one exactly when the key was
    present. *)
Theorem Delete_removes_the_key_only w key :
  quiescent w -> allocated w ->
  exists w',
    Delete key w = Returned tt w' /\
    Get key w' = Returned (zero, false) w' /\
    (forall k' r, k' <> key -> Get k' w = Returned r w -> Get k' w' = Returned r w') /\
    Len w' = Returned (Z.of_nat (size (entries w))
                       - match entries w !! key with Some _ => 1 | None => 0 end) w'.
Proof.
  intros Hq Ha.
  destruct (Delete_runs w key Hq Ha) as (w' & Hrun & Hq' & _ & _ & He).
  exists w'. split; [exact Hrun|]. split; [|split].
  - rewrite Get_spec by exact Hq'. rewrite He, lookup_delete_eq. reflexivity.
  - intros k' r Hne. rewrite !Get_spec by assumption.
    rewrite He, lookup_delete_ne by congruence.
    intros Hr. injection Hr as <-. reflexivity.
  - rewrite Len_spec by exact Hq'. rewrite He. f_equal.
    destruct (entries w !! key) as [v|] eqn:Hk.
    + rewrite map_size_delete_Some by (rewrite Hk; eauto).
      assert (size (entries w) <> 0%nat).
      { apply map_size_non_empty_iff. intros Heq.
        rewrite Heq, lookup_empty in Hk. discriminate. }
      lia.
    + rewrite map_size_delete_None by exact Hk. lia.
Qed.

(** X5.  [Set(key, value)] on a map that has been made touches that key
    alone: every other key reads as before, and [Len] grows by one exactly
    when the key was not there yet. *)
Theorem Set_touches_the_key_only w key value :
  quiescent w -> allocated w -> Data w <> None ->
  exists w',
    Set_ key value w = Returned tt w' /\
    (forall k' r, k' <> key -> Get k' w = Returned r w -> Get k' w' = Returned r w') /\
    Len w' = Returned (Z.of_nat (size (entries w))
                       + match entries w !! key with Some _ => 0 | None => 1 end) w'.
Proof.
  intros Hq Ha Hn.
  destruct (Set_then_Get w key value Hq Ha Hn) as (w' & Hrun & Hq' & He & _).
  exists w'. split; [exact Hrun|]. split.
  - intros k' r Hne. rewrite !Get_spec by assumption.
    rewrite He, lookup_insert_ne by congruence.
    intros Hr. injection Hr as <-. reflexivity.
  - rewrite Len_spec by exact Hq'. rewrite He. f_equal.
    destruct (entries w !! key) as [v|] eqn:Hk.
    + rewrite map_size_insert_Some by (rewrite Hk; eauto). lia.
    + rewrite map_size_insert_None by exact Hk. lia.
Qed.

(** X6.  [Empty] installs a map object of its own making, so after it
    [Set] returns on any [Map], the zero value included, and the map then
    holds that one entry. *)
Theorem Empty_makes_the_Map_writable w key value :
  quiescent w ->
  exists w1 w2,
    Empty w = Returned tt w1 /\
    Set_ key value w1 = Returned tt w2 /\
    Get key w2 = Returned (value, true) w2 /\
    Len w2 = Returned 1 w2.
Proof.
  intros Hq. eexists _, _. split; [apply Empty_spec; exact Hq|].
  split; [reflexivity|].
  rewrite Get_spec, Len_spec by reflexivity.
  unfold entries; simpl.
  rewrite lookup_alter_eq, lookup_insert_eq; simpl.
  rewrite lookup_insert_eq. split; [reflexivity|].
  rewrite insert_empty, map_size_singleton. reflexivity.
Qed.

(** X7.  Setting a key that was absent and deleting it again gives back a
    map with the entries it had. *)
Theorem Delete_undoes_Set_of_a_new_key w key value :
  quiescent w -> allocated w -> Data w <> None ->
  entries w !! key = None ->
  exists w1 w2,
    Set_ key value w = Returned tt w1 /\
    Delete key w1 = Returned tt w2 /\
    entries w2 = entries w /\
    Len w2 = Returned (Z.of_nat (size (entries w))) w2.
Proof.
  intros Hq Ha Hn Hk.
  destruct (Data w) as [l|] eqn:HD; [|congruence].
  pose proof Ha as Ha'. unfold allocated in Ha'. rewrite HD in Ha'.
  destruct Ha' as [d Hd].
  pose proof (Set_spec w key value l Hq HD) as Hset.
  set (w1 := set_maps (alter (insert key value) l (maps w)) w) in *.
  assert (He1 : entries w1 = <[key := value]> (entries w)).
  { unfold w1. rewrite (entries_after_write w key value l d HD Hd).
    unfold entries. rewrite HD, Hd. reflexivity. }
  assert (Ha1 : allocated w1).
  { unfold allocated, w1; simpl. rewrite HD, lookup_alter_eq, Hd. simpl. eauto. }
  destruct (Delete_runs w1 key Hq Ha1) as (w2 & Hdel & Hq2 & _ & _ & He2).
  exists w1, w2. split; [exact Hset|]. split; [exact Hdel|].
  assert (He : entries w2 = entries w).
  { rewrite He2, He1. apply delete_insert_id. exact Hk. }
  split; [exact He|]. rewrite Len_spec by exact Hq2. rewrite He. reflexivity.
Qed.

(** X8.  On a map made by [NewMap] and used through its methods, [Get],
    [Set], [Delete], [Keys], [Values], [Items], [Empty] and [Len] never
    panic and never wait: each of them returns, and leaves a map of which
    the same is true. *)
Theorem made_Map_calls_return w key value :
  made w ->
  (exists r, Get key w = Returned r w) /\
  (exists w', Set_ key value w = Returned tt w' /\ made w') /\
  (exists w', Delete key w = Returned tt w' /\ made w') /\
  (exists ks, Keys w = Returned ks w) /\
  (exists vs, Values w = Returned vs w) /\
  (exists kvs, Items w = Returned kvs w) /\
  (exists w', Empty w = Returned tt w' /\ made w') /\
  (exists n, Len w = Returned n w).
Proof.
  intros Hm. destruct (made_invariant w Hm) as (Hq & Ha & Hn).
  split; [eexists; apply Get_spec; exact Hq|]. split.
  { destruct (Set_then_Get w key value Hq Ha Hn) as (w' & Hrun & _).
    exists w'. split; [exact Hrun|].
    apply (made_call (CallSet key value) w w' Hm). simpl. rewrite Hrun. reflexivity. }
  split.
  { destruct (Delete_runs w key Hq Ha) as (w' & Hrun & _).
    exists w'. split; [exact Hrun|].
    apply (made_call (CallDelete key) w w' Hm). simpl. rewrite Hrun. reflexivity. }
  split; [eexists; apply Keys_spec; exact Hq|].
  split; [eexists; apply Values_spec; exact Hq|].
  split; [eexists; apply Items_spec; exact Hq|].
  split; [|eexists; apply Len_spec; exact Hq].
  eexists. split; [apply Empty_spec; exact Hq|].
  apply (made_call CallEmpty w _ Hm). simpl.
  rewrite Empty_spec by exact Hq. reflexivity.
Qed.

End MutexMapMore.

(** * More about slices: panics, the loop of [IndexFunc], shared arrays *)

(** An [int]. *)
Lemma wrap_int_max : wrap_int (max_int + 1) = - 2 ^ 63.
Proof. reflexivity. Qed.

Section GoSliceMore.
Import GoSlice.
Context {T : Type} `{ZeroValue T}.
Variable slack : nat -> nat -> nat.
Context {L : Type}.
Implicit Types (w : World T L) (s : slice) (h : gmap loc (list T)).

Lemma slice_len_nonneg s : 0 <= slice_len s.
Proof. destruct s; simpl; lia. Qed.

Lemma slice_len_le_cap h s : slice_ok h s -> slice_len s <= slice_cap s.
Proof. destruct s as [hd|]; simpl; [|lia]. intros (arr & _ & _ & Hl). lia. Qed.

Lemma slice_expr_panics w s lo hi :
  ~ (0 <= lo /\ lo <= hi /\ hi <= slice_cap s) -> slice_expr s lo hi w = Panicked w.
Proof.
  intros Hb. unfold slice_expr, reslice. rewrite decide_False by exact Hb. reflexivity.
Qed.

Lemma slice_expr_cases w s lo hi :
  slice_expr s lo hi w = Panicked w \/
  exists s', slice_expr s lo hi w = Returned s' w.
Proof.
  unfold slice_expr. destruct (reslice s lo hi); [right; eauto|left; reflexivity].
Qed.

(** Outside [[0, len)] the deleting statement panics before it writes. *)
Lemma assign_delete_out_of_range w index :
  - 2 ^ 63 <= index <= max_int ->
  slice_ok (arrays w) (Data w) ->
  ~ (0 <= index < slice_len (Data w)) ->
  assign_delete slack index w = Panicked w.
Proof.
  intros Hint Hok Hi. unfold assign_delete. rewrite bind_gets.
  destruct (slice_expr_cases w (Data w) 0 index) as [Hp|[a Ha]].
  - apply bind_Panicked. exact Hp.
  - rewrite (bind_Returned _ _ _ _ _ Ha). rewrite bind_gets.
    apply bind_Panicked. apply slice_expr_panics.
    pose proof (slice_len_nonneg (Data w)) as Hn.
    pose proof (slice_len_le_cap _ _ Hok) as Hc.
    assert (0 <= index).
    { unfold slice_expr, reslice in Ha.
      destruct (decide (0 <= 0 /\ 0 <= index /\ index <= slice_cap (Data w)));
        [lia|discriminate]. }
    destruct (decide (index = max_int)) as [->|Hne].
    + rewrite wrap_int_max. lia.
    + rewrite wrap_int_small by (unfold max_int in *; lia). lia.
Qed.

(** Outside [[0, len]] the inserting statement panics; the one-element
    array it may have made by then is referred to by nobody. *)
Lemma assign_insert_out_of_range w index v :
  slice_ok (arrays w) (Data w) ->
  ~ (0 <= index <= slice_len (Data w)) ->
  exists w',
    assign_insert slack index v w = Panicked w' /\
    Data w' = Data w /\ lock w' = lock w /\
    slice_ok (arrays w') (Data w') /\
    contents w' = contents w /\
    kept (arrays w) (arrays w') None.
Proof.
  intros Hok Hi. unfold assign_insert. rewrite bind_gets.
  destruct (slice_expr_cases w (Data w) 0 index) as [Hp|[a Ha]].
  - exists w. split; [apply bind_Panicked; exact Hp|].
    repeat (split; [reflexivity || exact Hok|]). intros l arr Hl _. exact Hl.
  - rewrite (bind_Returned _ _ _ _ _ Ha).
    destruct (literal_spec w v)
      as (lit & w1 & Hlit & HD1 & Hl1 & Hok1 & Hv1 & Hnew & Hk1).
    rewrite (bind_Returned _ _ _ _ _ Hlit). rewrite bind_gets.
    assert (Hag : agree (arrays w) (arrays w1) (Data w)).
    { apply (kept_agree _ _ None); [exact Hk1|exact Hok|]. intros; discriminate. }
    exists w1. split.
    + apply bind_Panicked. apply slice_expr_panics. rewrite HD1.
      assert (0 <= index).
      { unfold slice_expr, reslice in Ha.
        destruct (decide (0 <= 0 /\ 0 <= index /\ index <= slice_cap (Data w)));
          [lia|discriminate]. }
      lia.
    + split; [exact HD1|]. split; [exact Hl1|]. rewrite HD1.
      split; [exact (slice_ok_agree _ _ _ Hag Hok)|].
      split; [|exact Hk1].
      unfold contents. rewrite HD1. apply view_agree. exact Hag.
Qed.

(** What the loop of [IndexFunc] returns. *)
Lemma index_loop_spec (f : T -> bool) (xs : list T) (i0 : Z) :
  0 <= i0 ->
  (index_loop f xs i0 = -1 /\ forall x, x ∈ xs -> f x = false) \/
  (exists (n : nat) x,
     index_loop f xs i0 = i0 + Z.of_nat n /\
     xs !! n = Some x /\ f x = true /\
     forall (j : nat) y, (j < n)%nat -> xs !! j = Some y -> f y = false).
Proof.
  revert i0. induction xs as [|x xs IH]; intros i0 Hi0; simpl.
  - left. split; [reflexivity|]. intros x Hx. inversion Hx.
  - destruct (f x) eqn:Hfx.
    + right. exists 0%nat, x. split; [lia|]. split; [reflexivity|].
      split; [exact Hfx|]. intros j y Hj. lia.
    + destruct (IH (i0 + 1) ltac:(lia)) as [[Hr Hall]|(n & y & Hr & Hn & Hfy & Hbefore)].
      * left. split; [exact Hr|]. intros z Hz.
        apply elem_of_cons in Hz as [->|Hz]; [exact Hfx|apply Hall; exact Hz].
      * right. exists (S n), y. split; [lia|]. split; [exact Hn|].
        split; [exact Hfy|]. intros [|j] z Hj Hz; simpl in Hz.
        -- injection Hz as <-. exact Hfx.
        -- apply (Hbefore j); [lia|exact Hz].
Qed.

End GoSliceMore.

Section MutexSliceMore.
Import GoSlice MutexSlice.
Context {T : Type} `{ZeroValue T}.
Variable slack : nat -> nat -> nat.
Implicit Types (w : GoSlice.World T Mutex).

Lemma Slice_Append_spec w v :
  quiescent w -> slice_ok (arrays w) (Data w) ->
  exists w',
    Append slack v w = Returned tt w' /\
    quiescent w' /\ slice_ok (arrays w') (Data w') /\
    contents w' = contents w ++ [v].
Proof.
  intros Hq Hok.
  destruct (assign_append_spec slack (set_lock {| held := true |} w) v Hok)
    as (w' & Hrun & Hl & Hok' & Hc).
  exists (set_lock mutex_free w'). split.
  - unfold Append. apply locked_returns; auto.
  - split; [reflexivity|]. split; [exact Hok'|exact Hc].
Qed.

Lemma slice_len_contents w :
  slice_ok (arrays w) (Data w) ->
  slice_len (Data w) = Z.of_nat (length (contents w)).
Proof.
  intros Hok. unfold contents. rewrite view_length by exact Hok.
  pose proof (slice_len_nonneg (Data w)). lia.
Qed.

(** X9.  [Append(v)] returns on every sequence, the zero-value [Slice]
    included: the elements are the old ones followed by [v], [Len()] is one
    more, and [Get] at the old length returns [v]. *)
Theorem Append_adds_at_the_end w v :
  quiescent w -> slice_ok (arrays w) (Data w) ->
  exists w',
    Append slack v w = Returned tt w' /\
    contents w' = contents w ++ [v] /\
    Len w' = Returned (slice_len (Data w) + 1) w' /\
    Get (slice_len (Data w)) w' = Returned v w'.
Proof.
  intros Hq Hok.
  destruct (Slice_Append_spec w v Hq Hok) as (w' & Hrun & Hq' & Hok' & Hc).
  pose proof (slice_len_contents w Hok) as Hn.
  pose proof (slice_len_contents w' Hok') as Hn'.
  rewrite Hc, length_app in Hn'. simpl in Hn'.
  exists w'. split; [exact Hrun|]. split; [exact Hc|]. split.
  - rewrite Slice_Len_spec by exact Hq'. f_equal. lia.
  - destruct (Slice_Get_spec w' (slice_len (Data w)) Hq' Hok') as (x & Hx & Hget);
      [pose proof (slice_len_nonneg (Data w)); lia|].
    rewrite Hget. f_equal.
    rewrite Hc, Hn, Nat2Z.id in Hx.
    rewrite lookup_app_r, Nat.sub_diag in Hx by lia.
    simpl in Hx. congruence.
Qed.

(** X10.  [Replace(index, v)] inside the bounds returns with the element at
    [index] replaced and nothing else changed; outside them it panics, and
    the deferred unlock leaves the sequence unlocked and as it was. *)
Theorem Replace_overwrites_or_panics w index v :
  quiescent w -> slice_ok (arrays w) (Data w) ->
  (0 <= index < slice_len (Data w) ->
   exists w',
     Replace index v w = Returned tt w' /\
     quiescent w' /\
     contents w' = <[Z.to_nat index := v]> (contents w) /\
     Len w' = Returned (slice_len (Data w)) w') /\
  (~ (0 <= index < slice_len (Data w)) -> Replace index v w = Panicked w).
Proof.
  intros Hq Hok. split; intros Hi.
  - destruct (assign_index_spec (set_lock {| held := true |} w) index v Hok Hi)
      as (w' & Hrun & HD & Hl & Hok' & Hc).
    exists (set_lock mutex_free w'). split.
    + unfold Replace. apply locked_returns; auto.
    + split; [reflexivity|]. split; [exact Hc|].
      rewrite Slice_Len_spec by reflexivity. simpl. rewrite HD. reflexivity.
  - unfold Replace.
    rewrite (locked_panics _ w (set_lock {| held := true |} w));
      [rewrite mutex_relock by exact Hq|..]; auto.
    apply assign_index_out_of_range. exact Hi.
Qed.

(** X11.  [SafeReplace] answers true exactly when [Replace] would not
    panic, and then leaves what [Replace] leaves; otherwise it answers
    false and changes nothing. *)
Theorem SafeReplace_guards_Replace w index v :
  quiescent w -> slice_ok (arrays w) (Data w) ->
  (0 <= index < slice_len (Data w) ->
   exists w',
     Replace index v w = Returned tt w' /\
     SafeReplace index v w = Returned true w') /\
  (~ (0 <= index < slice_len (Data w)) ->
   Replace index v w = Panicked w /\
   SafeReplace index v w = Returned false w).
Proof.
  intros Hq Hok. split; intros Hi.
  - destruct (assign_index_spec (set_lock {| held := true |} w) index v Hok Hi)
      as (w' & Hrun & HD & Hl & Hok' & Hc).
    exists (set_lock mutex_free w'). split.
    + unfold Replace. apply locked_returns; auto.
    + unfold SafeReplace. apply locked_returns; auto.
      rewrite bind_gets. simpl. rewrite decide_False by lia.
      rewrite (bind_Returned _ _ _ _ _ Hrun). reflexivity.
  - split.
    + unfold Replace.
      rewrite (locked_panics _ w (set_lock {| held := true |} w));
        [rewrite mutex_relock by exact Hq|..]; auto.
      apply assign_index_out_of_range. exact Hi.
    + apply Slice_SafeReplace_rejects; [exact Hq|lia].
Qed.

(** X12.  [SafeInsert] answers true exactly when [Insert] would not panic,
    that is for an index in [[0, Len()]], and then leaves what [Insert]
    leaves; otherwise it answers false and changes nothing, where [Insert]
    panics with the elements as they were and the mutex released. *)
Theorem SafeInsert_guards_Insert w index v :
  quiescent w -> slice_ok (arrays w) (Data w) ->
  (0 <= index <= slice_len (Data w) ->
   exists w',
     Insert slack index v w = Returned tt w' /\
     SafeInsert slack index v w = Returned true w' /\
     contents w' = take (Z.to_nat index) (contents w)
                   ++ v :: drop (Z.to_nat index) (contents w)) /\
  (~ (0 <= index <= slice_len (Data w)) ->
   SafeInsert slack index v w = Returned false w /\
   exists w',
     Insert slack index v w = Panicked w' /\
     quiescent w' /\ Data w' = Data w /\ contents w' = contents w).
Proof.
  intros Hq Hok. split; intros Hi.
  - destruct (assign_insert_spec slack (set_lock {| held := true |} w) index v Hok Hi)
      as (w' & Hrun & Hl & Hok' & Hc).
    exists (set_lock mutex_free w'). split; [|split; [|exact Hc]].
    + unfold Insert. apply locked_returns; auto.
    + unfold SafeInsert. rewrite bind_gets. rewrite decide_False by lia.
      apply locked_returns; auto.
      rewrite (bind_Returned _ _ _ _ _ Hrun). reflexivity.
  - split; [apply Slice_SafeInsert_rejects; lia|].
    destruct (assign_insert_out_of_range slack (set_lock {| held := true |} w)
                index v Hok Hi) as (w' & Hrun & HD & Hl & _ & Hc & _).
    exists (set_lock mutex_free w'). split.
    + unfold Insert. apply locked_panics; auto.
    + split; [reflexivity|]. split; [exact HD|exact Hc].
Qed.

(** X13.  [SafeDelete] answers true exactly when [Delete] would not panic,
    that is for an index in [[0, Len())], and then leaves what [Delete]
    leaves; otherwise it answers false and changes nothing, where [Delete]
    panics with the sequence as it was and the mutex released. *)
Theorem SafeDelete_guards_Delete w index :
  quiescent w -> well_formed w -> - 2 ^ 63 <= index <= max_int ->
  (0 <= index < slice_len (Data w) ->
   exists w',
     Delete slack index w = Returned tt w' /\
     SafeDelete slack index w = Returned true w' /\
     contents w' = take (Z.to_nat index) (contents w)
                   ++ drop (S (Z.to_nat index)) (contents w)) /\
  (~ (0 <= index < slice_len (Data w)) ->
   SafeDelete slack index w = Returned false w /\
   Delete slack index w = Panicked w).
Proof.
  intros Hq Hwf Hint. split; intros Hi.
  - destruct (assign_delete_spec slack (set_lock {| held := true |} w) index Hwf Hi)
      as (w' & Hrun & Hl & Hwf' & Hc).
    exists (set_lock mutex_free w'). split; [|split; [|exact Hc]].
    + unfold Delete. apply locked_returns; auto.
    + unfold SafeDelete. rewrite bind_gets. rewrite decide_False by lia.
      apply locked_returns; auto.
      rewrite (bind_Returned _ _ _ _ _ Hrun). reflexivity.
  - split; [apply Slice_SafeDelete_rejects; lia|].
    unfold Delete.
    rewrite (locked_panics _ w (set_lock {| held := true |} w));
      [rewrite mutex_relock by exact Hq|..]; auto.
    apply assign_delete_out_of_range; [exact Hint|exact (proj1 Hwf)|exact Hi].
Qed.

(** X14.  [SafeGet] answers [(x, true)] exactly when [Get] returns [x], and
    [(zero, false)] exactly when [Get] panics; neither changes the
    sequence, and the panic of [Get] leaves the mutex released. *)
Theorem SafeGet_guards_Get w index :
  quiescent w -> slice_ok (arrays w) (Data w) ->
  (0 <= index < slice_len (Data w) ->
   exists x,
     contents w !! Z.to_nat index = Some x /\
     Get index w = Returned x w /\
     SafeGet index w = Returned (x, true) w) /\
  (~ (0 <= index < slice_len (Data w)) ->
   Get index w = Panicked w /\
   SafeGet index w = Returned (zero_value, false) w).
Proof.
  intros Hq Hok. split; intros Hi.
  - destruct (Slice_Get_spec w index Hq Hok Hi) as (x & Hx & Hget).
    destruct (Slice_SafeGet_in_range w index Hq Hok Hi) as (y & Hy & Hsafe).
    exists x. split; [exact Hx|]. split; [exact Hget|]. congruence.
  - split; [|apply Slice_SafeGet_out_of_range; [exact Hq|lia]].
    unfold Get.
    rewrite (locked_panics _ w (set_lock {| held := true |} w));
      [rewrite mutex_relock by exact Hq|..]; auto.
    rewrite bind_gets. apply index_load_out_of_range. exact Hi.
Qed.

(** X15.  [IndexFunc(f)] returns, with the sequence unchanged and unlocked,
    -1 when no element satisfies [f], and otherwise the least index whose
    element satisfies [f]. *)
Theorem IndexFunc_finds_the_first w (f : T -> bool) :
  quiescent w ->
  exists r,
    IndexFunc f w = Returned r w /\
    ((r = -1 /\ forall x, x ∈ contents w -> f x = false) \/
     (exists (n : nat) x,
        r = Z.of_nat n /\ contents w !! n = Some x /\ f x = true /\
        forall (j : nat) y, (j < n)%nat -> contents w !! j = Some y -> f y = false)).
Proof.
  intros Hq. exists (index_loop f (contents w) 0). split.
  - unfold IndexFunc.
    rewrite (locked_returns _ w (index_loop f (contents w) 0)
               (set_lock {| held := true |} w));
      [rewrite mutex_relock by exact Hq|..]; auto.
  - destruct (index_loop_spec f (contents w) 0 ltac:(lia))
      as [Hnone|(n & x & Hr & Hx & Hfx & Hb)]; [left; exact Hnone|].
    right. exists n, x. split; [lia|]. auto.
Qed.

(** X16.  [Empty()] returns with no elements left and [Len()] at 0, and
    writes to no array: a slice handed out by [GetAll] before still shows
    the elements it showed.  The emptied sequence takes [Append] again. *)
Theorem Empty_drops_the_array_untouched w v :
  quiescent w ->
  exists all w1 w2,
    GetAll w = Returned all w /\
    Empty w = Returned tt w1 /\
    contents w1 = [] /\
    Len w1 = Returned 0 w1 /\
    view (arrays w1) all = contents w /\
    Append slack v w1 = Returned tt w2 /\
    contents w2 = [v].
Proof.
  intros Hq.
  assert (Hrun : Empty w = Returned tt (set_Data None w)).
  { destruct w as [h d l]; unfold quiescent in Hq; simpl in Hq; subst.
    reflexivity. }
  destruct (Slice_Append_spec (set_Data None w) v) as (w2 & Happ & _ & _ & Hc);
    [exact Hq|exact I|].
  exists (Data w), (set_Data None w), w2.
  split; [apply Slice_GetAll_spec; exact Hq|]. split; [exact Hrun|].
  split; [reflexivity|]. split; [apply Slice_Len_spec; exact Hq|].
  split; [reflexivity|]. split; [exact Happ|exact Hc].
Qed.

(** X17.  Inserting at an index and deleting at the same index gives the
    elements back. *)
Theorem Delete_undoes_Insert w index v :
  quiescent w -> slice_ok (arrays w) (Data w) ->
  0 <= index <= slice_len (Data w) -> slice_len (Data w) < max_int ->
  exists w1 w2,
    Insert slack index v w = Returned tt w1 /\
    Delete slack index w1 = Returned tt w2 /\
    contents w2 = contents w /\
    Len w2 = Returned (slice_len (Data w)) w2.
Proof.
  intros Hq Hok Hi Hmax.
  destruct (Slice_Insert_spec slack w index v Hq Hok Hi)
    as (w1 & Hins & Hq1 & Hok1 & Hc1).
  pose proof (slice_len_contents w Hok) as Hn.
  pose proof (slice_len_contents w1 Hok1) as Hn1.
  assert (Hlen1 : length (contents w1) = S (length (contents w))).
  { rewrite Hc1, length_app, length_take. simpl. rewrite length_drop. lia. }
  destruct (Slice_Delete_spec slack w1 index Hq1) as (w2 & Hdel & Hq2 & Hwf2 & Hc2);
    [split; [exact Hok1|lia] | lia |].
  exists w1, w2. split; [exact Hins|]. split; [exact Hdel|].
  assert (Hc : contents w2 = contents w).
  { rewrite Hc2, Hc1.
    rewrite take_app_length' by (rewrite length_take; lia).
    rewrite cons_middle, app_assoc.
    rewrite drop_app_length' by (rewrite length_app, length_take; simpl; lia).
    apply take_drop. }
  split; [exact Hc|].
  rewrite Slice_Len_spec by exact Hq2.
  rewrite (slice_len_contents w2 (proj1 Hwf2)), Hc, <- Hn. reflexivity.
Qed.

End MutexSliceMore.

(** ** Arrays shared with slices handed out earlier *)

Section GoSliceShared.
Import GoSlice.
Context {T : Type} `{ZeroValue T}.
Variable slack : nat -> nat -> nat.
Context {L : Type}.
Implicit Types (w : World T L) (s : slice) (h : gmap loc (list T)).

Lemma reslice_Some (hd : header) lo hi :
  0 <= lo -> lo <= hi -> hi <= Z.of_nat (cap hd) ->
  reslice (Some hd) lo hi
  = Some (Some {| ptr := ptr hd; off := off hd + Z.to_nat lo;
                  len := Z.to_nat (hi - lo); cap := cap hd - Z.to_nat lo |}).
Proof.
  intros Hlo Hhi Hcap. unfold reslice. simpl.
  rewrite decide_True by lia. reflexivity.
Qed.

Lemma append_fits w (hd : header) xs :
  (len hd + length xs <= cap hd)%nat ->
  append slack (Some hd) xs w
  = Returned (Some {| ptr := ptr hd; off := off hd;
                      len := len hd + length xs; cap := cap hd |})
             (set_arrays (alter (fun arr => write_at arr (off hd + len hd) xs)
                                (ptr hd) (arrays w)) w).
Proof. intros Hfit. unfold append. rewrite decide_True by exact Hfit. reflexivity. Qed.

Lemma append_moves w (hd : header) xs :
  ~ (len hd + length xs <= cap hd)%nat ->
  exists c,
    append slack (Some hd) xs w
    = Returned (Some {| ptr := fresh (dom (arrays w)); off := 0;
                        len := len hd + length xs; cap := c |})
               (set_arrays (<[fresh (dom (arrays w))
                              := view (arrays w) (Some hd) ++ xs
                                 ++ make_list (c - (len hd + length xs))]>
                              (arrays w)) w).
Proof.
  intros Hfit. unfold append. rewrite decide_False by exact Hfit.
  eexists. reflexivity.
Qed.

(** The deleting statement, for an index inside the bounds, moves the
    elements behind [index] one slot down inside the array and shortens
    the window by one. *)
Lemma assign_delete_in_place w (hd : header) arr index :
  Data w = Some hd -> arrays w !! ptr hd = Some arr ->
  (off hd + cap hd <= length arr)%nat -> (len hd <= cap hd)%nat ->
  Z.of_nat (len hd) <= max_int ->
  0 <= index < Z.of_nat (len hd) ->
  exists w',
    assign_delete slack index w = Returned tt w' /\
    lock w' = lock w /\
    Data w' = Some {| ptr := ptr hd; off := off hd;
                      len := len hd - 1; cap := cap hd |} /\
    arrays w' = <[ptr hd := write_at arr (off hd + Z.to_nat index)
                              (drop (S (Z.to_nat index))
                                    (take (len hd) (drop (off hd) arr)))]>
                  (arrays w).
Proof.
  intros HD Harr Hcap Hlen Hmax Hi.
  unfold assign_delete. rewrite bind_gets, HD.
  unfold slice_expr at 1. unfold bind at 1.
  rewrite reslice_Some by lia.
  rewrite bind_gets, HD.
  rewrite wrap_int_small by (unfold max_int in *; lia).
  unfold slice_expr at 1. unfold bind at 1. simpl slice_len.
  rewrite reslice_Some by lia.
  rewrite bind_gets.
  match goal with |- context [append _ (Some ?a) ?xs] =>
    set (aa := a); set (ys := xs) end.
  assert (Hys : ys = drop (S (Z.to_nat index)) (take (len hd) (drop (off hd) arr))).
  { unfold ys, view. simpl. rewrite Harr. simpl.
    replace (take (len hd) (drop (off hd) arr))
      with (take (S (Z.to_nat index) + (len hd - S (Z.to_nat index)))
                 (drop (off hd) arr)) by (f_equal; lia).
    rewrite <- take_drop_commute, drop_drop.
    f_equal; [lia|]. f_equal. lia. }
  assert (Hylen : length ys = (len hd - S (Z.to_nat index))%nat).
  { rewrite Hys, length_drop, length_take, length_drop. lia. }
  rewrite (bind_Returned _ _ _ _ _ (append_fits w aa ys ltac:(unfold aa; simpl; lia))).
  eexists. split; [reflexivity|]. simpl.
  split; [reflexivity|]. split.
  - f_equal. unfold aa; simpl. f_equal; lia.
  - apply map_eq. intros l. destruct (decide (l = ptr hd)) as [->|Hne].
    + rewrite lookup_alter_eq, lookup_insert_eq, Harr. simpl.
      rewrite <- Hys. do 2 f_equal. lia.
    + rewrite lookup_alter_ne, lookup_insert_ne by congruence. reflexivity.
Qed.

(** What the old, longer window shows after such a statement: the
    shortened sequence, then the element that was last. *)
Lemma shifted_window {A} (arr : list A) (o n i : nat) (x : A) :
  (o + n <= length arr)%nat -> (i < n)%nat ->
  arr !! (o + n - 1)%nat = Some x ->
  take n (drop o (write_at arr (o + i) (drop (S i) (take n (drop o arr)))))
  = take i (take n (drop o arr)) ++ drop (S i) (take n (drop o arr)) ++ [x].
Proof.
  intros Hlen Hi Hx.
  set (c := take n (drop o arr)).
  assert (Hc : length c = n) by (unfold c; rewrite length_take, length_drop; lia).
  unfold write_at. rewrite length_drop, Hc.
  replace (o + i + (n - S i))%nat with (o + (n - 1))%nat by lia.
  assert (Htl : drop (o + (n - 1)) arr = x :: drop (o + n) arr).
  { replace (o + n)%nat with (S (o + n - 1)) by lia.
    replace (o + (n - 1))%nat with (o + n - 1)%nat by lia.
    apply drop_S. exact Hx. }
  rewrite Htl.
  assert (Hpre : take (o + i) arr = take o arr ++ take i c).
  { rewrite <- take_take_drop. f_equal. unfold c.
    rewrite take_take. f_equal. lia. }
  rewrite Hpre, <- app_assoc.
  rewrite drop_app_length' by (rewrite length_take; lia).
  replace (take i c ++ drop (S i) c ++ x :: drop (o + n) arr)
    with ((take i c ++ drop (S i) c ++ [x]) ++ drop (o + n) arr)
    by (rewrite <- !app_assoc; reflexivity).
  apply take_app_length'.
  rewrite !length_app, length_take, length_drop, Hc. simpl. lia.
Qed.

End GoSliceShared.

Section GoSliceAppendShared.
Import GoSlice.
Context {T : Type} `{ZeroValue T}.
Variable slack : nat -> nat -> nat.
Context {L : Type}.
Implicit Types (w : World T L) (s : slice) (h : gmap loc (list T)).

(** A full slice moves to an array of its own when appended to. *)
Lemma assign_append_moves w (hd : header) v :
  Data w = Some hd -> len hd = cap hd ->
  exists w' hd',
    assign_append slack v w = Returned tt w' /\
    lock w' = lock w /\
    Data w' = Some hd' /\ ptr hd' = fresh (dom (arrays w)) /\
    kept (arrays w) (arrays w') None.
Proof.
  intros HD Hfull. unfold assign_append. rewrite bind_gets, HD.
  destruct (append_moves slack w hd [v]) as [c Hc]; [simpl; lia|].
  rewrite (bind_Returned _ _ _ _ _ Hc).
  eexists _, _. split; [reflexivity|]. simpl.
  split; [reflexivity|]. split; [reflexivity|]. split; [reflexivity|].
  intros l arr Hl _. rewrite lookup_insert_ne; [exact Hl|].
  intros Heq. pose proof (fresh_unused (arrays w)) as Hf.
  rewrite Heq in Hf. congruence.
Qed.

(** A slice with room to spare is appended to inside its array. *)
Lemma assign_append_fits w (hd : header) v :
  Data w = Some hd -> (len hd < cap hd)%nat ->
  exists w',
    assign_append slack v w = Returned tt w' /\
    lock w' = lock w /\
    Data w' = Some {| ptr := ptr hd; off := off hd;
                      len := len hd + 1; cap := cap hd |}.
Proof.
  intros HD Hroom. unfold assign_append. rewrite bind_gets, HD.
  rewrite (bind_Returned _ _ _ _ _ (append_fits slack w hd [v] ltac:(simpl; lia))).
  eexists. split; [reflexivity|]. simpl. auto.
Qed.

(** An assignment through a slice lands where the same index of any
    window with the same start lands. *)
Lemma index_store_same_start w (hd hd' : header) i x :
  ptr hd = ptr hd' -> off hd = off hd' ->
  0 <= i < Z.of_nat (len hd) -> 0 <= i < Z.of_nat (len hd') ->
  index_store (Some hd) i x w = index_store (Some hd') i x w.
Proof.
  intros Hp Ho Hi Hi'. unfold index_store. simpl.
  rewrite !decide_True by assumption. rewrite Hp, Ho. reflexivity.
Qed.

End GoSliceAppendShared.

Section MutexSliceShared.
Import GoSlice MutexSlice.
Context {T : Type} `{ZeroValue T}.
Variable slack : nat -> nat -> nat.
Implicit Types (w : GoSlice.World T Mutex).

(** X18.  [Delete] moves the elements inside the array it shares with
    every slice [GetAll] handed out before: such a slice keeps its length
    and afterwards shows the shortened sequence followed by a second copy of
    the element that was last. *)
Theorem Delete_shifts_under_earlier_slices w index :
  quiescent w -> well_formed w ->
  0 <= index < slice_len (Data w) ->
  exists all w' z,
    GetAll w = Returned all w /\
    Delete slack index w = Returned tt w' /\
    last (contents w) = Some z /\
    contents w' = take (Z.to_nat index) (contents w)
                  ++ drop (S (Z.to_nat index)) (contents w) /\
    view (arrays w') all = contents w' ++ [z].
Proof.
  intros Hq [Hok Hmax] Hi.
  destruct (Data w) as [hd|] eqn:HD; [|simpl in Hi; lia].
  simpl in Hok, Hmax, Hi. destruct Hok as (arr & Harr & Hcap & Hlen).
  destruct (assign_delete_in_place slack (set_lock {| held := true |} w)
              hd arr index HD Harr Hcap Hlen Hmax Hi)
    as (w' & Hrun & Hl & HD' & Harrs).
  assert (Hc : contents w = take (len hd) (drop (off hd) arr)).
  { unfold contents, view. rewrite HD, Harr. reflexivity. }
  assert (Hclen : length (contents w) = len hd).
  { rewrite Hc, length_take, length_drop. lia. }
  destruct (lookup_lt_is_Some_2 arr (off hd + len hd - 1)) as [z Hlast]; [lia|].
  assert (Hview : view (arrays w') (Some hd)
                  = take (Z.to_nat index) (contents w)
                    ++ drop (S (Z.to_nat index)) (contents w) ++ [z]).
  { unfold view. rewrite Harrs, lookup_insert_eq. simpl. rewrite Hc.
    apply shifted_window; [lia|lia|exact Hlast]. }
  assert (Hc' : contents w' = take (Z.to_nat index) (contents w)
                              ++ drop (S (Z.to_nat index)) (contents w)).
  { unfold contents at 1. rewrite HD'.
    assert (Hsub : view (arrays w') (Some {| ptr := ptr hd; off := off hd;
                                             len := len hd - 1; cap := cap hd |})
                   = take (len hd - 1) (view (arrays w') (Some hd))).
    { unfold view. simpl. rewrite take_take. f_equal. lia. }
    rewrite Hsub, Hview, app_assoc.
    apply take_app_length'.
    rewrite length_app, length_take, length_drop. lia. }
  exists (Some hd), (set_lock mutex_free w'), z.
  split; [rewrite <- HD; apply Slice_GetAll_spec; exact Hq|].
  split; [unfold Delete; apply locked_returns; auto|].
  split; [|split; [exact Hc'|]].
  - rewrite last_lookup, Hclen, Hc.
    rewrite lookup_take_lt by lia. rewrite lookup_drop.
    replace (off hd + Init.Nat.pred (len hd))%nat with (off hd + len hd - 1)%nat by lia.
    exact Hlast.
  - change (view (arrays w') (Some hd) = contents w' ++ [z]).
    rewrite Hview, Hc', <- app_assoc. reflexivity.
Qed.

End MutexSliceShared.

Section MutexSliceAppendShared.
Import GoSlice MutexSlice.
Context {T : Type} `{ZeroValue T}.
Variable slack : nat -> nat -> nat.
Implicit Types (w : GoSlice.World T Mutex).

(** X19.  [Append] to a sequence that fills its capacity moves the
    sequence to a new array: a slice [GetAll] handed out before no longer
    shares storage with it, and an element assigned through that slice
    afterwards does not show in the sequence. *)
Theorem Append_beyond_capacity_detaches w v i x :
  quiescent w -> slice_ok (arrays w) (Data w) ->
  slice_len (Data w) = slice_cap (Data w) ->
  0 <= i < slice_len (Data w) ->
  exists all w1 w2,
    GetAll w = Returned all w /\
    Append slack v w = Returned tt w1 /\
    index_store all i x w1 = Returned tt w2 /\
    contents w1 = contents w ++ [v] /\
    contents w2 = contents w ++ [v].
Proof.
  intros Hq Hok Hfull Hi.
  destruct (Data w) as [hd|] eqn:HD; [|simpl in Hi; lia].
  simpl in Hfull, Hi. pose proof Hok as (arr & Harr & Hcap & Hlen).
  destruct (assign_append_moves slack (set_lock {| held := true |} w) hd v HD)
    as (w' & hd' & Hrun' & Hl' & HD' & Hptr & Hk'); [lia|].
  assert (Happ : Append slack v w = Returned tt (set_lock mutex_free w')).
  { unfold Append. apply locked_returns; auto. }
  rewrite <- HD in Hok.
  destruct (Slice_Append_spec slack w v Hq Hok) as (w1 & Happ1 & Hq1 & Hok1 & Hc1).
  assert (Hw1 : w1 = set_lock mutex_free w') by congruence.
  assert (HD1 : Data w1 = Some hd') by (rewrite Hw1; exact HD').
  assert (Hkeep : arrays w1 !! ptr hd = Some arr).
  { rewrite Hw1. simpl. apply Hk'; [exact Harr|discriminate]. }
  assert (Hne : ptr hd' <> ptr hd).
  { intros Heq. rewrite Hptr in Heq. simpl in Heq.
    pose proof (fresh_unused (arrays w)) as Hf. rewrite Heq in Hf. congruence. }
  destruct (index_store_spec w1 (Some hd) i x) as (w2 & Hst & HD2 & _ & _ & _ & Hk2).
  { exists arr. auto. }
  { simpl. exact Hi. }
  exists (Some hd), w1, w2.
  split; [rewrite <- HD; apply Slice_GetAll_spec; exact Hq|].
  split; [exact Happ1|]. split; [exact Hst|]. split; [exact Hc1|].
  rewrite <- Hc1. unfold contents. rewrite HD2. apply view_agree.
  apply (kept_agree _ _ (Some (ptr hd))); [exact Hk2|exact Hok1|].
  intros hd0 Hhd0. rewrite HD1 in Hhd0. injection Hhd0 as <-.
  intros Heq. injection Heq as Heq. congruence.
Qed.

(** X20.  [Append] to a sequence with capacity to spare writes into the
    array it has: a slice [GetAll] handed out before still shares storage
    with the longer sequence, and an element assigned through it afterwards
    shows in the sequence at that index. *)
Theorem Append_within_capacity_shares w v i x :
  quiescent w -> slice_ok (arrays w) (Data w) ->
  slice_len (Data w) < slice_cap (Data w) ->
  0 <= i < slice_len (Data w) ->
  exists all w1 w2,
    GetAll w = Returned all w /\
    Append slack v w = Returned tt w1 /\
    index_store all i x w1 = Returned tt w2 /\
    contents w1 = contents w ++ [v] /\
    contents w2 = <[Z.to_nat i := x]> (contents w ++ [v]).
Proof.
  intros Hq Hok Hroom Hi.
  destruct (Data w) as [hd|] eqn:HD; [|simpl in Hi; lia].
  simpl in Hroom, Hi.
  destruct (assign_append_fits slack (set_lock {| held := true |} w) hd v HD)
    as (w' & Hrun' & Hl' & HD'); [lia|].
  assert (Happ : Append slack v w = Returned tt (set_lock mutex_free w')).
  { unfold Append. apply locked_returns; auto. }
  rewrite <- HD in Hok.
  destruct (Slice_Append_spec slack w v Hq Hok) as (w1 & Happ1 & Hq1 & Hok1 & Hc1).
  assert (Hw1 : w1 = set_lock mutex_free w') by congruence.
  assert (HD1 : Data w1 = Some {| ptr := ptr hd; off := off hd;
                                  len := len hd + 1; cap := cap hd |})
    by (rewrite Hw1; exact HD').
  destruct (index_store_spec w1 (Data w1) i x Hok1) as (w2 & Hst & HD2 & _ & _ & Hv & _).
  { rewrite HD1. simpl. lia. }
  exists (Some hd), w1, w2.
  split; [rewrite <- HD; apply Slice_GetAll_spec; exact Hq|].
  split; [exact Happ1|]. split.
  - rewrite <- Hst, HD1. apply index_store_same_start; simpl; auto; lia.
  - split; [exact Hc1|]. rewrite <- Hc1. unfold contents. rewrite HD2. exact Hv.
Qed.

End MutexSliceAppendShared.

(** * More about the [sync.RWMutex] [Slice] *)

Section RWSliceMore.
Import GoSlice RWSlice.
Context {T : Type} `{ZeroValue T}.
Variable slack : nat -> nat -> nat.
Implicit Types (w : GoSlice.World T RWMutex).

(** A writer cannot start while a reader holds the lock. *)
Lemma Lock_waits_for_readers w n :
  lock w = {| writer := false; readers := S n |} -> Lock w = Blocked.
Proof. intros Hl. unfold Lock, acquire, rw_lock. rewrite Hl. reflexivity. Qed.

(** X21.  This variant's [SafeInsert] never lengthens the sequence.  For an
    index in [[0, Len())] it overwrites the element there, answers true and
    leaves the lock free.  For an index from [Len()] on it answers false
    with the elements untouched, but returns with its read lock still
    taken: from then on [Append], [Insert], [Delete] and [Empty] wait for
    ever, while [Len] still returns. *)
Theorem RW_SafeInsert_overwrites_or_keeps_the_read_lock w index v :
  quiescent w -> slice_ok (arrays w) (Data w) ->
  (0 <= index < slice_len (Data w) ->
   exists w',
     SafeInsert index v w = Returned true w' /\
     quiescent w' /\
     contents w' = <[Z.to_nat index := v]> (contents w)) /\
  (index >= slice_len (Data w) ->
   exists w',
     SafeInsert index v w = Returned false w' /\
     contents w' = contents w /\
     (forall u, Append slack u w' = Blocked) /\
     (forall j u, Insert j u w' = Blocked) /\
     (forall j, Delete slack j w' = Blocked) /\
     Empty w' = Blocked /\
     exists w'', Len w' = Returned (slice_len (Data w)) w'').
Proof.
  intros Hq Hok. split; intros Hi.
  - destruct w as [h d l]. unfold quiescent in Hq. simpl in Hq, Hok, Hi. subst l.
    destruct (assign_index_spec
                {| arrays := h; Data := d;
                   lock := {| writer := true; readers := 0 |} |}
                index v Hok Hi) as (w' & Hrun & HD & Hl & Hok' & Hc).
    exists (set_lock rwmutex_free w').
    split; [|split; [reflexivity|exact Hc]].
    unfold SafeInsert, bind, RLock, RUnlock, Lock, Unlock, acquire, release,
      gets, ret.
    cbn [lock set_lock arrays Data rw_rlock rw_runlock rw_lock rw_unlock
         writer readers rwmutex_free].
    rewrite decide_False by lia.
    cbn [lock set_lock arrays Data rw_rlock rw_runlock rw_lock rw_unlock
         writer readers rwmutex_free].
    change (set_lock {| writer := true; readers := 0 |}
              (set_lock {| writer := false; readers := 0 |}
                 (set_lock {| writer := false; readers := 1 |}
                    {| arrays := h; Data := d; lock := rwmutex_free |})))
      with {| arrays := h; Data := d;
              lock := {| writer := true; readers := 0 |} |}.
    rewrite Hrun, Hl. reflexivity.
  - exists (set_lock {| writer := false; readers := 1 |} w).
    split; [apply RW_SafeInsert_past_end; assumption|].
    split; [reflexivity|].
    assert (Hw : forall A (k : unit -> M _ A),
               bind Lock k (set_lock {| writer := false; readers := 1 |} w) = Blocked).
    { intros A k. unfold bind. rewrite (Lock_waits_for_readers _ 0); reflexivity. }
    split; [intros u; apply Hw|]. split; [intros j u; apply Hw|].
    split; [intros j; apply Hw|]. split; [apply Hw|].
    eexists. reflexivity.
Qed.

Lemma RW_Append_spec w v :
  quiescent w -> slice_ok (arrays w) (Data w) ->
  exists w',
    Append slack v w = Returned tt w' /\
    quiescent w' /\ slice_ok (arrays w') (Data w') /\
    contents w' = contents w ++ [v].
Proof.
  intros Hq Hok.
  destruct (assign_append_spec slack (set_lock {| writer := true; readers := 0 |} w)
              v Hok) as (w' & Hrun & Hl & Hok' & Hc).
  exists (set_lock rwmutex_free w'). split.
  - unfold Append. apply write_locked_returns; auto.
  - split; [reflexivity|]. split; [exact Hok'|exact Hc].
Qed.

Lemma RW_slice_len_contents w :
  slice_ok (arrays w) (Data w) ->
  slice_len (Data w) = Z.of_nat (length (contents w)).
Proof.
  intros Hok. unfold contents. rewrite view_length by exact Hok.
  pose proof (slice_len_nonneg (Data w)). lia.
Qed.

(** X22.  Under the read/write lock too, [Append(v)] returns on every
    sequence, the zero value included, with the old elements followed by
    [v], [Len()] one more and [Get] at the old length returning [v]. *)
Theorem RW_Append_adds_at_the_end w v :
  quiescent w -> slice_ok (arrays w) (Data w) ->
  exists w',
    Append slack v w = Returned tt w' /\
    contents w' = contents w ++ [v] /\
    Len w' = Returned (slice_len (Data w) + 1) w' /\
    Get (slice_len (Data w)) w' = Returned v w'.
Proof.
  intros Hq Hok.
  destruct (RW_Append_spec w v Hq Hok) as (w' & Hrun & Hq' & Hok' & Hc).
  pose proof (RW_slice_len_contents w Hok) as Hn.
  pose proof (RW_slice_len_contents w' Hok') as Hn'.
  rewrite Hc, length_app in Hn'. simpl in Hn'.
  exists w'. split; [exact Hrun|]. split; [exact Hc|]. split.
  - rewrite RW_Len_spec by exact Hq'. f_equal. lia.
  - destruct (RW_Get_spec w' (slice_len (Data w)) Hq' Hok') as (x & Hx & Hget);
      [pose proof (slice_len_nonneg (Data w)); lia|].
    rewrite Hget. f_equal.
    rewrite Hc, Hn, Nat2Z.id in Hx.
    rewrite lookup_app_r, Nat.sub_diag in Hx by lia.
    simpl in Hx. congruence.
Qed.

(** X23.  Under the read/write lock [Delete] and [SafeDelete] behave as
    under the mutex: inside the bounds both remove the element at [index]
    and close the gap, [SafeDelete] answering true; outside them
    [SafeDelete] answers false and changes nothing, where [Delete] panics
    with the sequence as it was and the lock released. *)
Theorem RW_SafeDelete_guards_Delete w index :
  quiescent w -> well_formed w -> - 2 ^ 63 <= index <= max_int ->
  (0 <= index < slice_len (Data w) ->
   exists w',
     Delete slack index w = Returned tt w' /\
     SafeDelete slack index w = Returned true w' /\
     quiescent w' /\
     contents w' = take (Z.to_nat index) (contents w)
                   ++ drop (S (Z.to_nat index)) (contents w)) /\
  (~ (0 <= index < slice_len (Data w)) ->
   SafeDelete slack index w = Returned false w /\
   Delete slack index w = Panicked w).
Proof.
  intros Hq Hwf Hint. split; intros Hi.
  - destruct (assign_delete_spec slack (set_lock {| writer := true; readers := 0 |} w)
                index Hwf Hi) as (w' & Hrun & Hl & Hwf' & Hc).
    exists (set_lock rwmutex_free w').
    split; [|split; [|split; [reflexivity|exact Hc]]].
    + unfold Delete. apply write_locked_returns; auto.
    + unfold SafeDelete. rewrite bind_gets. rewrite decide_False by lia.
      apply write_locked_returns; auto.
      rewrite (bind_Returned _ _ _ _ _ Hrun). reflexivity.
  - split.
    + unfold SafeDelete. rewrite bind_gets. rewrite decide_True by lia. reflexivity.
    + unfold Delete.
      rewrite (write_locked_panics _ w (set_lock {| writer := true; readers := 0 |} w));
        [rewrite rw_relock by exact Hq|..]; auto.
      apply assign_delete_out_of_range; [exact Hint|exact (proj1 Hwf)|exact Hi].
Qed.

(** X24.  This variant's [SafeGet] agrees with [Get] inside the bounds,
    returning the element with true, and answers [(zero, false)] for an
    index beyond [Len()]; in both cases the sequence is unchanged and the
    lock free again. *)
Theorem RW_SafeGet_inside_and_beyond w index :
  quiescent w -> slice_ok (arrays w) (Data w) ->
  (0 <= index < slice_len (Data w) ->
   exists x,
     contents w !! Z.to_nat index = Some x /\
     Get index w = Returned x w /\
     SafeGet index w = Returned (x, true) w) /\
  (index > slice_len (Data w) ->
   SafeGet index w = Returned (zero_value, false) w /\
   Get index w = Panicked w).
Proof.
  intros Hq Hok. split; intros Hi.
  - destruct (RW_Get_spec w index Hq Hok Hi) as (x & Hx & Hget).
    exists x. split; [exact Hx|]. split; [exact Hget|].
    destruct (index_load_spec (set_lock {| writer := false; readers := 1 |} w)
                (Data w) index Hok Hi) as (y & Hy & Hrun).
    simpl in Hy. unfold contents in Hx. assert (y = x) by congruence. subst y.
    unfold SafeGet.
    rewrite (read_locked_returns _ w (x, true)
               (set_lock {| writer := false; readers := 1 |} w));
      [rewrite rw_relock by exact Hq|..]; auto.
    rewrite bind_gets. simpl. rewrite decide_False by lia.
    simpl in Hrun. rewrite (bind_Returned _ _ _ _ _ Hrun). reflexivity.
  - split.
    + unfold SafeGet.
      rewrite (read_locked_returns _ w (zero_value, false)
                 (set_lock {| writer := false; readers := 1 |} w));
        [rewrite rw_relock by exact Hq|..]; auto.
      rewrite bind_gets. simpl. rewrite decide_True by lia. reflexivity.
    + unfold Get.
      rewrite (read_locked_panics _ w (set_lock {| writer := false; readers := 1 |} w));
        [rewrite rw_relock by exact Hq|..]; auto.
      rewrite bind_gets. apply index_load_out_of_range. simpl. lia.
Qed.

(** X25.  Readers share the lock and writers do not: with [n] read locks
    out and no writer, [Len], [GetAll] and [IndexFunc] return and leave the
    [n] read locks as they were; with at least one read lock out, [Append],
    [Delete] and [Empty] wait; and with the write lock out every one of
    them waits. *)
Theorem RW_readers_share_writers_wait w n (f : T -> bool) v index :
  (lock w = {| writer := false; readers := n |} ->
   Len w = Returned (slice_len (Data w)) w /\
   GetAll w = Returned (Data w) w /\
   IndexFunc f w = Returned (index_loop f (contents w) 0) w) /\
  (lock w = {| writer := false; readers := S n |} ->
   Append slack v w = Blocked /\
   Delete slack index w = Blocked /\
   Empty w = Blocked) /\
  (lock w = {| writer := true; readers := n |} ->
   Len w = Blocked /\ GetAll w = Blocked /\ IndexFunc f w = Blocked /\
   Append slack v w = Blocked /\ Delete slack index w = Blocked /\
   Empty w = Blocked).
Proof.
  destruct w as [h d l]. simpl. split; [|split]; intros ->.
  - repeat split; reflexivity.
  - repeat split; reflexivity.
  - repeat split; reflexivity.
Qed.

End RWSliceMore.

(** * The [sync.RWMutex] [Map] *)

Section RWMapFacts.
Import RWMap.
Context {K : Type} `{Countable K} `{ZeroValue K}.
Context {V : Type} `{ZeroValue V}.
Implicit Types (w : World (K := K) (V := V)) (key : K) (value : V).

Ltac rw_enter w :=
  destruct w as [? ? ?]; unfold quiescent, entries in *; simpl in *; subst;
  unfold Get, Delete, Set_, Empty, Keys, Values, Items,
    Lock, Unlock, RLock, RUnlock, acquire, release, bind, defer, ret, gets, modify,
    map_read, map_write, map_delete, map_len, make_map, range, lift_option,
    entries, set_lock, set_Data, set_maps, rwmutex_free;
  simpl.

Lemma RWMap_Get_spec w key :
  quiescent w ->
  Get key w = Returned (match entries w !! key with
                        | Some v => (v, true)
                        | None => (zero, false)
                        end) w.
Proof.
  intros Hq. rw_enter w.
  match goal with |- context [ ?m !! key ] => destruct (m !! key) end;
    reflexivity.
Qed.

Lemma RWMap_Set_spec w key value l :
  quiescent w -> Data w = Some l ->
  Set_ key value w
  = Returned tt (set_maps (alter (insert key value) l (maps w)) w).
Proof. intros Hq HD. rw_enter w. reflexivity. Qed.

Lemma RWMap_Delete_runs w key :
  quiescent w -> allocated w ->
  exists w', Delete key w = Returned tt w' /\
             quiescent w' /\ allocated w' /\ Data w' = Data w /\
             entries w' = delete key (entries w).
Proof.
  intros Hq Ha. destruct w as [h d l]. unfold quiescent in Hq. simpl in Hq. subst l.
  unfold allocated in Ha. simpl in Ha.
  destruct d as [l|].
  - destruct Ha as [m Hm].
    destruct (m !! key) as [v|] eqn:Hk.
    + eexists. split.
      * unfold Delete, bind, defer, Lock, Unlock, acquire, release, map_read,
          map_delete, entries. simpl. rewrite Hm. simpl. rewrite Hk. reflexivity.
      * split; [reflexivity|]. unfold allocated, entries. simpl.
        rewrite lookup_alter_eq, Hm. simpl. eauto.
    + eexists. split.
      * unfold Delete, bind, defer, Lock, Unlock, acquire, release, map_read,
          map_delete, entries. simpl. rewrite Hm. simpl. rewrite Hk. reflexivity.
      * split; [reflexivity|]. unfold allocated, entries. simpl. rewrite Hm.
        split; [eauto|]. split; [reflexivity|]. simpl.
        symmetry. apply delete_id. exact Hk.
  - eexists. split; [reflexivity|]. split; [reflexivity|].
    unfold allocated, entries. simpl. split; [exact I|]. split; [reflexivity|].
    rewrite delete_id by apply lookup_empty. reflexivity.
Qed.

(** X26.  Under the read/write lock, on a map that has been made,
    [Set(key, value)] returns and [Get(key)] then returns [(value, true)];
    every other key reads as before; and a key that is absent reads as
    [(zero, false)]. *)
Theorem RWMap_Get_after_Set w key value :
  quiescent w -> allocated w -> Data w <> None ->
  (entries w !! key = None -> Get key w = Returned (zero, false) w) /\
  exists w',
    Set_ key value w = Returned tt w' /\
    Get key w' = Returned (value, true) w' /\
    (forall k' r, k' <> key -> Get k' w = Returned r w -> Get k' w' = Returned r w').
Proof.
  intros Hq Ha Hn. split.
  - intros Hk. rewrite RWMap_Get_spec by exact Hq. rewrite Hk. reflexivity.
  - destruct (Data w) as [l|] eqn:HD; [|congruence].
    unfold allocated in Ha. rewrite HD in Ha. destruct Ha as [d Hd].
    eexists. split; [apply (RWMap_Set_spec w key value l Hq HD)|].
    assert (He : entries (set_maps (alter (insert key value) l (maps w)) w)
                 = <[key := value]> (entries w)).
    { unfold entries; simpl. rewrite HD, lookup_alter_eq, Hd. reflexivity. }
    split.
    + rewrite RWMap_Get_spec by exact Hq. rewrite He, lookup_insert_eq. reflexivity.
    + intros k' r Hne. rewrite !RWMap_Get_spec by exact Hq.
      rewrite He, lookup_insert_ne by congruence.
      intros Hr. injection Hr as <-. reflexivity.
Qed.

(** X27.  Under the read/write lock, [Delete(key)] returns whether or not
    the key is there, also on the zero-value [Map]; afterwards [Get(key)]
    finds nothing and every other key reads as before.  Deleting the key a
    second time changes nothing. *)
Theorem RWMap_Delete_removes_the_key_only w key :
  quiescent w -> allocated w ->
  exists w',
    Delete key w = Returned tt w' /\
    Get key w' = Returned (zero, false) w' /\
    (forall k' r, k' <> key -> Get k' w = Returned r w -> Get k' w' = Returned r w') /\
    Delete key w' = Returned tt w'.
Proof.
  intros Hq Ha.
  destruct (RWMap_Delete_runs w key Hq Ha) as (w' & Hrun & Hq' & Ha' & _ & He).
  exists w'. split; [exact Hrun|]. split; [|split].
  - rewrite RWMap_Get_spec by exact Hq'. rewrite He, lookup_delete_eq. reflexivity.
  - intros k' r Hne. rewrite !RWMap_Get_spec by assumption.
    rewrite He, lookup_delete_ne by congruence.
    intros Hr. injection Hr as <-. reflexivity.
  - assert (Hk : entries w' !! key = None) by (rewrite He; apply lookup_delete_eq).
    clear - Hq' Hk. rw_enter w'. rewrite Hk. reflexivity.
Qed.

Lemma RWMap_Items_spec w :
  quiescent w ->
  Items w = Returned ((map_to_list (entries w)).*1, (map_to_list (entries w)).*2) w.
Proof.
  intros Hq.
  pose proof (items_loop_fills (map_to_list (entries w)) []
                (make_list (length (map_to_list (entries w)))) []
                (make_list (length (map_to_list (entries w))))) as Hloop.
  simpl in Hloop. rewrite !make_list_whole, !app_nil_r in Hloop.
  rewrite length_map_to_list in Hloop.
  specialize (Hloop eq_refl
                ltac:(unfold make_list; rewrite length_replicate; lia)
                ltac:(unfold make_list; rewrite length_replicate; lia)).
  change (Z.of_nat 0) with 0 in Hloop.
  revert Hloop. rw_enter w. rewrite Nat2Z.id. intros ->. reflexivity.
Qed.

(** X28.  Under the read/write lock, [Items] returns two slices of the
    same length, the keys without repetition; [keys[i]] and [values[i]] are
    always a key and its value in the map, and every entry of the map sits
    at some index. *)
Theorem RWMap_Items_pairs_are_the_entries w :
  quiescent w ->
  exists ks vs,
    Items w = Returned (ks, vs) w /\
    length ks = length vs /\
    NoDup ks /\
    (forall k v, (exists i : nat, ks !! i = Some k /\ vs !! i = Some v)
                 <-> entries w !! k = Some v).
Proof.
  intros Hq.
  exists (map_to_list (entries w)).*1, (map_to_list (entries w)).*2.
  split; [apply RWMap_Items_spec; exact Hq|].
  split; [rewrite !length_fmap; reflexivity|].
  split; [apply NoDup_fst_map_to_list|].
  intros k v. rewrite <- elem_of_map_to_list, list_elem_of_lookup.
  split; intros [i Hi]; exists i.
  - destruct Hi as [Hk Hv].
    rewrite list_lookup_fmap in Hk. rewrite list_lookup_fmap in Hv.
    destruct (map_to_list (entries w) !! i) as [[k' v']|]; simpl in *;
      [congruence|discriminate].
  - rewrite !list_lookup_fmap, Hi. split; reflexivity.
Qed.


End RWMapFacts.

(** * The further facts at work on the concrete worlds *)

Section MoreScenarios.
Import GoSlice.

Lemma ab_allocated : MutexMap.allocated ab.
Proof. vm_compute. eexists. reflexivity. Defined.

Lemma rw_ab_allocated : RWMap.allocated rw_ab.
Proof. vm_compute. eexists. reflexivity. Defined.

Lemma roomy123_slice_ok : slice_ok (arrays roomy123) (Data roomy123).
Proof. exists [10; 20; 30; 0]. simpl. split; [reflexivity|lia]. Defined.

Lemma s123_slice_ok : slice_ok (arrays s123) (Data s123).
Proof. exists [10; 20; 30]. simpl. split; [reflexivity|lia]. Defined.

Lemma s123_int_sized : well_formed s123.
Proof. split; [exact s123_slice_ok|]. vm_compute. discriminate. Defined.

Lemma rw123_int_sized : well_formed rw123.
Proof.
  split; [|vm_compute; discriminate].
  exists [10; 20; 30]. simpl. split; [reflexivity|lia].
Defined.

Lemma Keys_holds_each_key_once_witness :
  exists ks,
    MutexMap.Keys ab = Returned ks ab /\
    NoDup ks /\
    (forall k, k ∈ ks <-> is_Some (MutexMap.entries ab !! k)) /\
    MutexMap.Len ab = Returned (Z.of_nat (length ks)) ab.
Proof. apply (Keys_holds_each_key_once ab). reflexivity. Defined.

Lemma Values_holds_the_values_witness :
  exists vs,
    MutexMap.Values ab = Returned vs ab /\
    vs ≡ₚ (map_to_list (MutexMap.entries ab)).*2 /\
    (forall v, v ∈ vs <-> exists k, MutexMap.entries ab !! k = Some v) /\
    MutexMap.Len ab = Returned (Z.of_nat (length vs)) ab.
Proof. apply (Values_holds_the_values ab). reflexivity. Defined.

Lemma Items_pairs_are_the_entries_witness :
  exists ks vs,
    MutexMap.Items ab = Returned (ks, vs) ab /\
    length ks = length vs /\
    NoDup ks /\
    (forall k v, (exists i : nat, ks !! i = Some k /\ vs !! i = Some v)
                 <-> MutexMap.entries ab !! k = Some v).
Proof. apply (Items_pairs_are_the_entries ab). reflexivity. Defined.

Lemma Delete_removes_the_key_only_witness :
  exists w',
    MutexMap.Delete "a"%string ab = Returned tt w' /\
    MutexMap.Get "a"%string w' = Returned (0, false) w' /\
    (forall k' r, k' <> "a"%string ->
       MutexMap.Get k' ab = Returned r ab -> MutexMap.Get k' w' = Returned r w') /\
    MutexMap.Len w' = Returned 1 w'.
Proof.
  apply (Delete_removes_the_key_only ab "a"%string); [reflexivity|exact ab_allocated].
Defined.

Lemma Set_touches_the_key_only_witness :
  exists w',
    MutexMap.Set_ "c"%string 3 ab = Returned tt w' /\
    (forall k' r, k' <> "c"%string ->
       MutexMap.Get k' ab = Returned r ab -> MutexMap.Get k' w' = Returned r w') /\
    MutexMap.Len w' = Returned 3 w'.
Proof.
  apply (Set_touches_the_key_only ab "c"%string 3);
    [reflexivity|exact ab_allocated|discriminate].
Defined.

Lemma Empty_makes_the_Map_writable_witness :
  exists w1 w2,
    MutexMap.Empty (MutexMap.zero_Map ∅) = Returned tt w1 /\
    MutexMap.Set_ "a"%string 1 w1 = Returned tt w2 /\
    MutexMap.Get "a"%string w2 = Returned (1, true) w2 /\
    MutexMap.Len w2 = Returned 1 w2.
Proof.
  apply (Empty_makes_the_Map_writable (MutexMap.zero_Map ∅) "a"%string 1).
  reflexivity.
Defined.

Lemma Delete_undoes_Set_of_a_new_key_witness :
  exists w1 w2,
    MutexMap.Set_ "c"%string 3 ab = Returned tt w1 /\
    MutexMap.Delete "c"%string w1 = Returned tt w2 /\
    MutexMap.entries w2 = MutexMap.entries ab /\
    MutexMap.Len w2 = Returned 2 w2.
Proof.
  apply (Delete_undoes_Set_of_a_new_key ab "c"%string 3);
    [reflexivity|exact ab_allocated|discriminate|vm_compute; reflexivity].
Defined.

Lemma made_Map_calls_return_witness :
  (exists r, MutexMap.Get "a"%string ab = Returned r ab) /\
  (exists w', MutexMap.Set_ "a"%string 7 ab = Returned tt w' /\ MutexMap.made w') /\
  (exists w', MutexMap.Delete "a"%string ab = Returned tt w' /\ MutexMap.made w') /\
  (exists ks, MutexMap.Keys ab = Returned ks ab) /\
  (exists vs, MutexMap.Values ab = Returned vs ab) /\
  (exists kvs, MutexMap.Items ab = Returned kvs ab) /\
  (exists w', MutexMap.Empty ab = Returned tt w' /\ MutexMap.made w') /\
  (exists n, MutexMap.Len ab = Returned n ab).
Proof. apply (made_Map_calls_return ab "a"%string 7). exact ab_made. Defined.

Lemma Append_adds_at_the_end_witness :
  exists w',
    MutexSlice.Append grow_double 40 s123 = Returned tt w' /\
    contents w' = [10; 20; 30; 40] /\
    MutexSlice.Len w' = Returned 4 w' /\
    MutexSlice.Get 3 w' = Returned 40 w'.
Proof.
  apply (Append_adds_at_the_end grow_double s123 40); [reflexivity|exact s123_slice_ok].
Defined.

Lemma Replace_overwrites_or_panics_witness :
  (exists w',
     MutexSlice.Replace 1 99 s123 = Returned tt w' /\
     MutexSlice.quiescent w' /\
     contents w' = [10; 99; 30] /\
     MutexSlice.Len w' = Returned 3 w') /\
  MutexSlice.Replace 3 99 s123 = Panicked s123.
Proof.
  split.
  - apply (Replace_overwrites_or_panics s123 1 99 eq_refl s123_slice_ok). simpl. lia.
  - apply (Replace_overwrites_or_panics s123 3 99 eq_refl s123_slice_ok). simpl. lia.
Defined.

Lemma SafeReplace_guards_Replace_witness :
  (exists w',
     MutexSlice.Replace 1 99 s123 = Returned tt w' /\
     MutexSlice.SafeReplace 1 99 s123 = Returned true w') /\
  (MutexSlice.Replace (-1) 99 s123 = Panicked s123 /\
   MutexSlice.SafeReplace (-1) 99 s123 = Returned false s123).
Proof.
  split.
  - apply (SafeReplace_guards_Replace s123 1 99 eq_refl s123_slice_ok). simpl. lia.
  - apply (SafeReplace_guards_Replace s123 (-1) 99 eq_refl s123_slice_ok). simpl. lia.
Defined.

Lemma SafeInsert_guards_Insert_witness :
  (exists w',
     MutexSlice.Insert grow_double 3 99 s123 = Returned tt w' /\
     MutexSlice.SafeInsert grow_double 3 99 s123 = Returned true w' /\
     contents w' = [10; 20; 30; 99]) /\
  (MutexSlice.SafeInsert grow_double 4 99 s123 = Returned false s123 /\
   exists w',
     MutexSlice.Insert grow_double 4 99 s123 = Panicked w' /\
     MutexSlice.quiescent w' /\ Data w' = Data s123 /\ contents w' = contents s123).
Proof.
  split.
  - apply (SafeInsert_guards_Insert grow_double s123 3 99 eq_refl s123_slice_ok).
    simpl. lia.
  - apply (SafeInsert_guards_Insert grow_double s123 4 99 eq_refl s123_slice_ok).
    simpl. lia.
Defined.

Lemma SafeDelete_guards_Delete_witness :
  (exists w',
     MutexSlice.Delete grow_double 0 s123 = Returned tt w' /\
     MutexSlice.SafeDelete grow_double 0 s123 = Returned true w' /\
     contents w' = [20; 30]) /\
  (MutexSlice.SafeDelete grow_double 3 s123 = Returned false s123 /\
   MutexSlice.Delete grow_double 3 s123 = Panicked s123).
Proof.
  split.
  - apply (SafeDelete_guards_Delete grow_double s123 0 eq_refl s123_int_sized);
      [unfold max_int; lia | simpl; lia].
  - apply (SafeDelete_guards_Delete grow_double s123 3 eq_refl s123_int_sized);
      [unfold max_int; lia | simpl; lia].
Defined.

Lemma SafeGet_guards_Get_witness :
  (exists x,
     contents s123 !! 2%nat = Some x /\
     MutexSlice.Get 2 s123 = Returned x s123 /\
     MutexSlice.SafeGet 2 s123 = Returned (x, true) s123) /\
  (MutexSlice.Get 3 s123 = Panicked s123 /\
   MutexSlice.SafeGet 3 s123 = Returned (0, false) s123).
Proof.
  split.
  - apply (SafeGet_guards_Get s123 2 eq_refl s123_slice_ok). simpl. lia.
  - apply (SafeGet_guards_Get s123 3 eq_refl s123_slice_ok). simpl. lia.
Defined.

Lemma IndexFunc_finds_the_first_witness :
  exists r,
    MutexSlice.IndexFunc (fun x => 15 <? x) s123 = Returned r s123 /\
    ((r = -1 /\ forall x, x ∈ contents s123 -> (15 <? x) = false) \/
     (exists (n : nat) x,
        r = Z.of_nat n /\ contents s123 !! n = Some x /\ (15 <? x) = true /\
        forall (j : nat) y, (j < n)%nat -> contents s123 !! j = Some y ->
                            (15 <? y) = false)).
Proof. apply (IndexFunc_finds_the_first s123 (fun x => 15 <? x)). reflexivity. Defined.

Lemma Empty_drops_the_array_untouched_witness :
  exists all w1 w2,
    MutexSlice.GetAll s123 = Returned all s123 /\
    MutexSlice.Empty s123 = Returned tt w1 /\
    contents w1 = [] /\
    MutexSlice.Len w1 = Returned 0 w1 /\
    view (arrays w1) all = [10; 20; 30] /\
    MutexSlice.Append grow_double 7 w1 = Returned tt w2 /\
    contents w2 = [7].
Proof. apply (Empty_drops_the_array_untouched grow_double s123 7). reflexivity. Defined.

Lemma Delete_undoes_Insert_witness :
  exists w1 w2,
    MutexSlice.Insert grow_double 1 99 s123 = Returned tt w1 /\
    MutexSlice.Delete grow_double 1 w1 = Returned tt w2 /\
    contents w2 = [10; 20; 30] /\
    MutexSlice.Len w2 = Returned 3 w2.
Proof.
  apply (Delete_undoes_Insert grow_double s123 1 99 eq_refl s123_slice_ok);
    [simpl; lia | vm_compute; reflexivity].
Defined.

Lemma Delete_shifts_under_earlier_slices_witness :
  exists all w' z,
    MutexSlice.GetAll s123 = Returned all s123 /\
    MutexSlice.Delete grow_double 0 s123 = Returned tt w' /\
    last (contents s123) = Some z /\
    contents w' = [20; 30] /\
    view (arrays w') all = contents w' ++ [z].
Proof.
  apply (Delete_shifts_under_earlier_slices grow_double s123 0 eq_refl s123_int_sized).
  simpl. lia.
Defined.

Lemma Append_beyond_capacity_detaches_witness :
  exists all w1 w2,
    MutexSlice.GetAll s123 = Returned all s123 /\
    MutexSlice.Append grow_double 40 s123 = Returned tt w1 /\
    index_store all 1 99 w1 = Returned tt w2 /\
    contents w1 = [10; 20; 30; 40] /\
    contents w2 = [10; 20; 30; 40].
Proof.
  apply (Append_beyond_capacity_detaches grow_double s123 40 1 99 eq_refl s123_slice_ok);
    [reflexivity | simpl; lia].
Defined.

Lemma Append_within_capacity_shares_witness :
  exists all w1 w2,
    MutexSlice.GetAll roomy123 = Returned all roomy123 /\
    MutexSlice.Append grow_double 40 roomy123 = Returned tt w1 /\
    index_store all 1 99 w1 = Returned tt w2 /\
    contents w1 = [10; 20; 30; 40] /\
    contents w2 = [10; 99; 30; 40].
Proof.
  apply (Append_within_capacity_shares grow_double roomy123 40 1 99 eq_refl
           roomy123_slice_ok); simpl; lia.
Defined.

Lemma RW_SafeInsert_overwrites_or_keeps_the_read_lock_witness :
  (exists w',
     RWSlice.SafeInsert 1 99 rw123 = Returned true w' /\
     RWSlice.quiescent w' /\
     contents w' = [10; 99; 30]) /\
  (exists w',
     RWSlice.SafeInsert 3 99 rw123 = Returned false w' /\
     contents w' = contents rw123 /\
     (forall u, RWSlice.Append grow_double u w' = Blocked) /\
     (forall j u, RWSlice.Insert j u w' = Blocked) /\
     (forall j, RWSlice.Delete grow_double j w' = Blocked) /\
     RWSlice.Empty w' = Blocked /\
     exists w'', RWSlice.Len w' = Returned 3 w'').
Proof.
  split.
  - apply (RW_SafeInsert_overwrites_or_keeps_the_read_lock grow_double rw123 1 99
             eq_refl rw123_slice_ok). simpl. lia.
  - apply (RW_SafeInsert_overwrites_or_keeps_the_read_lock grow_double rw123 3 99
             eq_refl rw123_slice_ok). simpl. lia.
Defined.

Lemma RW_Append_adds_at_the_end_witness :
  exists w',
    RWSlice.Append grow_double 40 rw123 = Returned tt w' /\
    contents w' = [10; 20; 30; 40] /\
    RWSlice.Len w' = Returned 4 w' /\
    RWSlice.Get 3 w' = Returned 40 w'.
Proof.
  apply (RW_Append_adds_at_the_end grow_double rw123 40); [reflexivity|exact rw123_slice_ok].
Defined.

Lemma RW_SafeDelete_guards_Delete_witness :
  (exists w',
     RWSlice.Delete grow_double 1 rw123 = Returned tt w' /\
     RWSlice.SafeDelete grow_double 1 rw123 = Returned true w' /\
     RWSlice.quiescent w' /\
     contents w' = [10; 30]) /\
  (RWSlice.SafeDelete grow_double 5 rw123 = Returned false rw123 /\
   RWSlice.Delete grow_double 5 rw123 = Panicked rw123).
Proof.
  split.
  - apply (RW_SafeDelete_guards_Delete grow_double rw123 1 eq_refl rw123_int_sized);
      [unfold max_int; lia | simpl; lia].
  - apply (RW_SafeDelete_guards_Delete grow_double rw123 5 eq_refl rw123_int_sized);
      [unfold max_int; lia | simpl; lia].
Defined.

Lemma RW_SafeGet_inside_and_beyond_witness :
  (exists x,
     contents rw123 !! 2%nat = Some x /\
     RWSlice.Get 2 rw123 = Returned x rw123 /\
     RWSlice.SafeGet 2 rw123 = Returned (x, true) rw123) /\
  (RWSlice.SafeGet 4 rw123 = Returned (0, false) rw123 /\
   RWSlice.Get 4 rw123 = Panicked rw123).
Proof.
  split.
  - apply (RW_SafeGet_inside_and_beyond rw123 2 eq_refl rw123_slice_ok). simpl. lia.
  - apply (RW_SafeGet_inside_and_beyond rw123 4 eq_refl rw123_slice_ok). simpl. lia.
Defined.

Lemma RW_readers_share_writers_wait_witness :
  (RWSlice.Len (seq123 {| writer := false; readers := 2 |})
     = Returned 3 (seq123 {| writer := false; readers := 2 |}) /\
   RWSlice.GetAll (seq123 {| writer := false; readers := 2 |})
     = Returned (Data rw123) (seq123 {| writer := false; readers := 2 |}) /\
   RWSlice.IndexFunc (fun x => 15 <? x) (seq123 {| writer := false; readers := 2 |})
     = Returned 1 (seq123 {| writer := false; readers := 2 |})) /\
  (RWSlice.Append grow_double 40 (seq123 {| writer := false; readers := 2 |}) = Blocked /\
   RWSlice.Delete grow_double 1 (seq123 {| writer := false; readers := 2 |}) = Blocked /\
   RWSlice.Empty (seq123 {| writer := false; readers := 2 |}) = Blocked).
Proof.
  destruct (RW_readers_share_writers_wait grow_double
              (seq123 {| writer := false; readers := 2 |}) 2 (fun x => 15 <? x) 40 1)
    as (Hread & _ & _).
  destruct (RW_readers_share_writers_wait grow_double
              (seq123 {| writer := false; readers := 2 |}) 1 (fun x => 15 <? x) 40 1)
    as (_ & Hwrite & _).
  split; [apply Hread; reflexivity|apply Hwrite; reflexivity].
Defined.

Lemma RWMap_Get_after_Set_witness :
  RWMap.Get "c"%string rw_ab = Returned (0, false) rw_ab /\
  exists w',
    RWMap.Set_ "c"%string 3 rw_ab = Returned tt w' /\
    RWMap.Get "c"%string w' = Returned (3, true) w' /\
    (forall k' r, k' <> "c"%string ->
       RWMap.Get k' rw_ab = Returned r rw_ab -> RWMap.Get k' w' = Returned r w').
Proof.
  destruct (RWMap_Get_after_Set rw_ab "c"%string 3 eq_refl rw_ab_allocated)
    as [Habs Hset]; [discriminate|].
  split; [apply Habs; vm_compute; reflexivity|exact Hset].
Defined.

Lemma RWMap_Delete_removes_the_key_only_witness :
  exists w',
    RWMap.Delete "a"%string rw_ab = Returned tt w' /\
    RWMap.Get "a"%string w' = Returned (0, false) w' /\
    (forall k' r, k' <> "a"%string ->
       RWMap.Get k' rw_ab = Returned r rw_ab -> RWMap.Get k' w' = Returned r w') /\
    RWMap.Delete "a"%string w' = Returned tt w'.
Proof.
  apply (RWMap_Delete_removes_the_key_only rw_ab "a"%string);
    [reflexivity|exact rw_ab_allocated].
Defined.

Lemma RWMap_Items_pairs_are_the_entries_witness :
  exists ks vs,
    RWMap.Items rw_ab = Returned (ks, vs) rw_ab /\
    length ks = length vs /\
    NoDup ks /\
    (forall k v, (exists i : nat, ks !! i = Some k /\ vs !! i = Some v)
                 <-> RWMap.entries rw_ab !! k = Some v).
Proof. apply (RWMap_Items_pairs_are_the_entries rw_ab). reflexivity. Defined.


End MoreScenarios.
